(** * alarm_cond.c: the alarm list, the dispatcher and the command loop

    A shallow embedding of [alarm_cond.c].  The program keeps a singly
    linked list of alarms sorted by expiry time, guarded by one mutex and
    one condition variable.  [alarm_insert] links a new alarm into the
    list, [alarm_group_display_creation] is the dispatcher loop that waits
    for the head of the list to expire, and [main] reads command lines,
    parses them with [sscanf] and applies them.

    The embedding follows the C text function by function:
    - the linked list is a [list alarm_t] ([link] is the list structure);
    - the two globals [alarm_list] and [current_alarm] form the record
      [shared];
    - calls that leave the program (pthread calls, [time], [fgets],
      [malloc]) take their result from the [world]: a queue of replies, a
      queue of input lines and a queue of heap blocks;
    - [printf]/[fprintf] and every call to the environment append an
      [event] to the trace of the world;
    - [while] loops run on fuel. *)

From Stdlib Require Import ZArith List String Ascii Bool Lia Permutation.
From Stdlib Require DecimalString DecimalNat DecimalFacts.
Import ListNotations.

Local Open Scope string_scope.
Local Open Scope list_scope.
Local Open Scope Z_scope.

(** ** Data *)

(** [struct alarm_tag].  The [link] field is the tail of the Rocq list the
    alarm sits in.  [seconds], [id_alarm] and [id_group] are C [int]s and
    [time] is a [time_t]; their values are kept as [Z]. *)
Record alarm_t : Type := mkAlarm {
  seconds  : Z;
  id_alarm : Z;
  id_group : Z;
  message  : string;
  time     : Z
}.

Definition with_time (a : alarm_t) (t : Z) : alarm_t :=
  mkAlarm (seconds a) (id_alarm a) (id_group a) (message a) t.

Definition with_id_alarm (a : alarm_t) (v : Z) : alarm_t :=
  mkAlarm (seconds a) v (id_group a) (message a) (time a).

Definition with_id_group (a : alarm_t) (v : Z) : alarm_t :=
  mkAlarm (seconds a) (id_alarm a) v (message a) (time a).

Definition with_seconds (a : alarm_t) (v : Z) : alarm_t :=
  mkAlarm v (id_alarm a) (id_group a) (message a) (time a).

Definition with_message (a : alarm_t) (m : string) : alarm_t :=
  mkAlarm (seconds a) (id_alarm a) (id_group a) m (time a).

(** The globals protected by [alarm_mutex]. *)
Record shared : Type := mkShared {
  alarm_list    : list alarm_t;
  current_alarm : Z
}.

(** ** The list walk of [alarm_insert] (lines 58-77)

    [last]/[next] walk the list; the new alarm is linked in front of the
    first entry whose [time] is [>=] the new one, or at the end. *)
Fixpoint insert_in_order (alarm : alarm_t) (l : list alarm_t) : list alarm_t :=
  match l with
  | [] => [alarm]
  | next :: rest =>
      if time next >=? time alarm
      then alarm :: next :: rest
      else next :: insert_in_order alarm rest
  end.

(** Orderings on the list: the one the code maintains, and the one the
    specification speaks of. *)
Definition time_le (a b : alarm_t) : Prop := time a <= time b.

Definition deadline_id_lt (a b : alarm_t) : Prop :=
  time a < time b \/ (time a = time b /\ id_alarm a < id_alarm b).

Fixpoint adjacent (R : alarm_t -> alarm_t -> Prop) (l : list alarm_t) : Prop :=
  match l with
  | a :: (b :: _) as tl => R a b /\ adjacent R tl
  | _ => True
  end.

Definition deadline_id_ltb (a b : alarm_t) : bool :=
  (time a <? time b) || ((time a =? time b) && (id_alarm a <? id_alarm b)).

Fixpoint adjacentb (r : alarm_t -> alarm_t -> bool) (l : list alarm_t) : bool :=
  match l with
  | a :: (b :: _) as tl => r a b && adjacentb r tl
  | _ => true
  end.


(** ** The world outside the program

    Every call that leaves the program returns a [reply]: the status code
    of the call, the wall clock at the moment it returns, and the value of
    the shared variables as the caller finds them when the call hands the
    mutex (back) to it.  [time] reads [r_clock]; the pthread calls read
    [r_status]; [pthread_mutex_lock], [pthread_cond_wait] and
    [pthread_cond_timedwait] also install [r_shared], because other
    threads run while the caller does not hold the mutex. *)
Record reply : Type := mkReply {
  r_status : Z;
  r_clock  : Z;
  r_shared : shared
}.

Inductive call : Type :=
| C_sem_init
| C_sem_wait
| C_create (start_routine : string)
| C_mutex_lock
| C_mutex_unlock
| C_cond_signal
| C_cond_wait
| C_cond_timedwait (tv_sec tv_nsec : Z)
| C_time.

(** What the program prints, and the calls it makes. *)
Inductive event : Type :=
| Prompt                                    (* printf ("Alarm> ") *)
| BadCommand                                (* fprintf (stderr, "Bad command\n") *)
| Inserted (alarm : alarm_t)                (* printf ("Alarm(%d) Inserted ...") *)
| Delivered (secs : Z) (msg : string)       (* printf ("(%d) %s\n", ...) *)
| Called (c : call) (r : reply).

(** [w_stdin] holds the lines as successive [fgets] calls return them,
    [w_heap] the blocks [malloc] can still hand out, each with the
    indeterminate contents it has at allocation, [w_env] the replies of
    the calls still to come. *)
Record world : Type := mkWorld {
  w_shared : shared;
  w_trace  : list event;
  w_stdin  : list string;
  w_heap   : list alarm_t;
  w_env    : list reply
}.

(** ** Outcomes and the monad of the program *)

Inductive outcome (A : Type) : Type :=
| Done (a : A) (w : world)                     (* the code ran to its end *)
| Aborted (code : Z) (text : string) (w : world) (* err_abort, errno_abort *)
| Exited (code : Z) (w : world)                (* exit *)
| Crashed (w : world)                          (* dereference of NULL *)
| Starved (w : world)                          (* a call that never returns *)
| OutOfFuel (w : world).

Arguments Done {A} a w.
Arguments Aborted {A} code text w.
Arguments Exited {A} code w.
Arguments Crashed {A} w.
Arguments Starved {A} w.
Arguments OutOfFuel {A} w.

Definition final {A : Type} (o : outcome A) : world :=
  match o with
  | Done _ w | Aborted _ _ w | Exited _ w | Crashed w | Starved w | OutOfFuel w => w
  end.

Definition M (A : Type) : Type := world -> outcome A.

Definition ret {A : Type} (a : A) : M A := fun w => Done a w.

Definition bind {A B : Type} (m : M A) (k : A -> M B) : M B :=
  fun w =>
    match m w with
    | Done a w' => k a w'
    | Aborted c t w' => Aborted c t w'
    | Exited c w' => Exited c w'
    | Crashed w' => Crashed w'
    | Starved w' => Starved w'
    | OutOfFuel w' => OutOfFuel w'
    end.

Declare Scope prog_scope.
Delimit Scope prog_scope with prog.
Notation "x <- m ;; k" := (bind m (fun x => k))
  (at level 61, m at next level, right associativity) : prog_scope.
Notation "m ;; k" := (bind m (fun _ => k))
  (at level 61, right associativity) : prog_scope.
Local Open Scope prog_scope.

(** Loops.  The body says whether the loop goes round again or is left. *)
Inductive ctl (S A : Type) : Type :=
| Continue (s : S)
| Break (a : A).

Arguments Continue {S A} s.
Arguments Break {S A} a.

Fixpoint while_loop {S A : Type} (fuel : nat) (body : S -> M (ctl S A)) (s : S)
  : M A :=
  match fuel with
  | O => fun w => OutOfFuel w
  | Datatypes.S fuel' =>
      fun w =>
        match body s w with
        | Done (Continue s') w' => while_loop fuel' body s' w'
        | Done (Break a) w' => Done a w'
        | Aborted c t w' => Aborted c t w'
        | Exited c w' => Exited c w'
        | Crashed w' => Crashed w'
        | Starved w' => Starved w'
        | OutOfFuel w' => OutOfFuel w'
        end
  end.

(** State access. *)
Definition put_shared (w : world) (sh : shared) : world :=
  mkWorld sh (w_trace w) (w_stdin w) (w_heap w) (w_env w).

Definition with_alarm_list (w : world) (l : list alarm_t) : world :=
  put_shared w (mkShared l (current_alarm (w_shared w))).

Definition with_current (w : world) (t : Z) : world :=
  put_shared w (mkShared (alarm_list (w_shared w)) t).

Definition log (w : world) (e : event) : world :=
  mkWorld (w_shared w) (w_trace w ++ [e]) (w_stdin w) (w_heap w) (w_env w).

Definition get_shared : M shared := fun w => Done (w_shared w) w.

Definition set_shared (sh : shared) : M unit :=
  fun w => Done tt (put_shared w sh).

Definition set_alarm_list (l : list alarm_t) : M unit :=
  fun w => Done tt (with_alarm_list w l).

Definition set_current_alarm (t : Z) : M unit :=
  fun w => Done tt (with_current w t).

Definition emit (e : event) : M unit := fun w => Done tt (log w e).

(** A call to the environment takes the next reply and records itself. *)
Definition env_call (c : call) : M reply :=
  fun w =>
    match w_env w with
    | [] => Starved w
    | r :: env =>
        Done r (mkWorld (w_shared w) (w_trace w ++ [Called c r]) (w_stdin w)
                        (w_heap w) env)
    end.

Definition acquire (c : call) : M Z :=
  r <- env_call c ;; set_shared (r_shared r) ;; ret (r_status r).

Definition status_of (c : call) : M Z :=
  r <- env_call c ;; ret (r_status r).

Definition pthread_mutex_lock : M Z := acquire C_mutex_lock.
Definition pthread_mutex_unlock : M Z := status_of C_mutex_unlock.
Definition pthread_cond_signal : M Z := status_of C_cond_signal.
Definition pthread_cond_wait : M Z := acquire C_cond_wait.
Definition pthread_cond_timedwait (tv_sec tv_nsec : Z) : M Z :=
  acquire (C_cond_timedwait tv_sec tv_nsec).
Definition pthread_create (start_routine : string) : M Z :=
  status_of (C_create start_routine).
Definition sem_init : M Z := status_of C_sem_init.
Definition sem_wait : M Z := status_of C_sem_wait.
Definition time_now : M Z := r <- env_call C_time ;; ret (r_clock r).

Definition fgets : M (option string) :=
  fun w =>
    match w_stdin w with
    | [] => Done None w
    | line :: rest =>
        Done (Some line)
             (mkWorld (w_shared w) (w_trace w) rest (w_heap w) (w_env w))
    end.

Definition malloc : M (option alarm_t) :=
  fun w =>
    match w_heap w with
    | [] => Done None w
    | blk :: rest =>
        Done (Some blk)
             (mkWorld (w_shared w) (w_trace w) (w_stdin w) rest (w_env w))
    end.

(** [free] gives the block back; nothing the model observes changes. *)
Definition free (alarm : alarm_t) : M unit := ret tt.

Definition exit {A : Type} (code : Z) : M A := fun w => Exited code w.

Definition crash {A : Type} : M A := fun w => Crashed w.

(** Modelled from the spec: [err_abort] and [errno_abort] are macros of
    [errors.h], which is not part of the sources.  The specification says
    that [err_abort] terminates the process; [errno_abort] is its sibling
    that reports [errno].  Both end the run with the code and the text. *)
Definition err_abort {A : Type} (code : Z) (text : string) : M A :=
  fun w => Aborted code text w.

Definition ENOMEM : Z := 12.

Definition errno_abort {A : Type} (text : string) : M A :=
  fun w => Aborted ENOMEM text w.

(** [ETIMEDOUT] of [<errno.h>] (its Linux value). *)
Definition ETIMEDOUT : Z := 110.

(** ** [alarm_insert] (lines 46-98)

    The caller holds the mutex.  [pthread_self] only feeds the text of the
    message. *)
Definition alarm_insert (alarm : alarm_t) : M unit :=
  sh <- get_shared ;;
  set_alarm_list (insert_in_order alarm (alarm_list sh)) ;;
  emit (Inserted alarm) ;;
  sh <- get_shared ;;
  if (current_alarm sh =? 0) || (time alarm <? current_alarm sh)
  then
    set_current_alarm (time alarm) ;;
    status <- pthread_cond_signal ;;
    if status =? 0 then ret tt else err_abort status "Signal cond"
  else ret tt.

(** ** [alarm_group_display_creation] (lines 103-161) *)

(** Lines 126-129: [while (alarm_list == NULL) pthread_cond_wait]. *)
Definition wait_for_work (fuel : nat) : M unit :=
  while_loop fuel
    (fun _ : unit =>
       sh <- get_shared ;;
       match alarm_list sh with
       | [] =>
           status <- pthread_cond_wait ;;
           if status =? 0 then ret (Continue tt)
           else err_abort status "Wait on cond"
       | _ :: _ => ret (Break tt)
       end)
    tt.

(** Lines 142-151: the timed wait; the result is [expired]. *)
Definition wait_for_deadline (fuel : nat) (alarm : alarm_t) : M bool :=
  while_loop fuel
    (fun _ : unit =>
       sh <- get_shared ;;
       if current_alarm sh =? time alarm
       then
         status <- pthread_cond_timedwait (time alarm) 0 ;;
         if status =? ETIMEDOUT then ret (Break true)
         else if status =? 0 then ret (Continue tt)
              else err_abort status "Cond timedwait"
       else ret (Break false))
    tt.

(** Lines 125-159: one round of the [while (1)]. *)
Definition dispatch_iteration (fuel : nat) : M unit :=
  set_current_alarm 0 ;;
  wait_for_work fuel ;;
  sh <- get_shared ;;
  match alarm_list sh with
  | [] => crash
  | alarm :: link =>
      set_alarm_list link ;;
      now <- time_now ;;
      expired <-
        (if time alarm >? now
         then
           set_current_alarm (time alarm) ;;
           expired <- wait_for_deadline fuel alarm ;;
           (if negb expired then alarm_insert alarm else ret tt) ;;
           ret expired
         else ret true) ;;
      if expired
      then emit (Delivered (seconds alarm) (message alarm)) ;; free alarm
      else ret tt
  end.

Definition alarm_group_display_creation (fuel : nat) : M unit :=
  status <- pthread_mutex_lock ;;
  (if status =? 0 then ret tt else err_abort status "Lock mutex") ;;
  while_loop fuel
    (fun _ : unit => dispatch_iteration fuel ;; ret (@Continue unit unit tt))
    tt.

(** ** The stubs (lines 163-175) *)
Definition alarm_change (alarm : alarm_t) : M unit := ret tt.
Definition alarm_cancel (alarm : alarm_t) : M unit := ret tt.
Definition alarm_suspend (alarm : alarm_t) : M unit := ret tt.
Definition alarm_reactivate (alarm : alarm_t) : M unit := ret tt.
Definition alarm_view : M unit := ret tt.
Definition alarm_group_display_removal : M unit := ret tt.

(** ** [input_validator] (lines 178-200)

    [strcmp (a, b) == 0] is equality of the two strings. *)
Definition input_validator (keyword_action keyword_group : string)
           (user_arg : Z) : M Z :=
  if (keyword_action =? "Cancel_Alarm")%string && (user_arg =? 2) then ret 1
  else if (keyword_action =? "View_Alarms")%string && (user_arg =? 1) then ret 2
  else if (keyword_action =? "Start_Alarm")%string
          && (keyword_group =? "Group")%string && (user_arg =? 6) then ret 3
  else if (keyword_action =? "Change_Alarm")%string
          && (keyword_group =? "Group")%string && (user_arg =? 6) then ret 4
  else if (keyword_action =? "Suspend_Alarm")%string && (user_arg =? 2) then ret 5
  else if (keyword_action =? "Reactivate_Alarm")%string && (user_arg =? 2)
       then ret 6
  else err_abort 69 "command not found".

(** ** [sscanf] on the format of line 235

    [sscanf (line, "%[^(\n](%d): %[^(\n](%d)%d %128[^\n]", keyword_action,
    &alarm->id_alarm, keyword_group, &alarm->id_group, &alarm->seconds,
    alarm->message)], directive by directive as C99 7.19.6.2 describes
    them.  A field that no conversion reaches keeps what it held before
    the call. *)

Definition isspace (c : ascii) : bool :=
  let n := nat_of_ascii c in
  ((n =? 32) || ((9 <=? n) && (n <=? 13)))%nat.

Fixpoint skip_spaces (s : string) : string :=
  match s with
  | String c s' => if isspace c then skip_spaces s' else s
  | EmptyString => s
  end.

(** A [%[...]] conversion: the longest prefix of at most [width]
    characters that all belong to the scanset, and the rest. *)
Fixpoint scanset (keep : ascii -> bool) (width : nat) (s : string)
  : string * string :=
  match width, s with
  | Datatypes.S width', String c s' =>
      if keep c
      then let (m, r) := scanset keep width' s' in (String c m, r)
      else (EmptyString, s)
  | _, _ => (EmptyString, s)
  end.

Definition not_paren_nl (c : ascii) : bool :=
  negb (Ascii.eqb c "(") && negb (Ascii.eqb c "010").

Definition not_nl (c : ascii) : bool := negb (Ascii.eqb c "010").

Definition literal (c : ascii) (s : string) : option string :=
  match s with
  | String c' s' => if Ascii.eqb c c' then Some s' else None
  | EmptyString => None
  end.

Definition digit_of (c : ascii) : option Z :=
  let n := nat_of_ascii c in
  if ((48 <=? n) && (n <=? 57))%nat then Some (Z.of_nat n - 48) else None.

Fixpoint scan_digits (acc : Z) (s : string) : Z * string :=
  match s with
  | String c s' =>
      match digit_of c with
      | Some d => scan_digits (10 * acc + d) s'
      | None => (acc, s)
      end
  | EmptyString => (acc, s)
  end.

(** The value [%d] stores: the digits are converted as by [strtol] (which
    saturates at the bounds of [long]) and the result is stored in an
    [int] (32 bits, two's complement). *)
Definition to_int (v : Z) : Z :=
  let l := Z.max (- 2 ^ 63) (Z.min v (2 ^ 63 - 1)) in
  (l + 2 ^ 31) mod 2 ^ 32 - 2 ^ 31.

(** The values of a C [int], and of a [time_t] of 64 bits. *)
Definition int_range (v : Z) : Prop := - 2 ^ 31 <= v < 2 ^ 31.

Definition time_t_range (v : Z) : Prop := - 2 ^ 63 <= v < 2 ^ 63.

(** A [%d] conversion: white space is skipped, then an optional sign and
    at least one digit. *)
Definition scan_int (s : string) : option (Z * string) :=
  let s0 := skip_spaces s in
  let '(neg, s1) :=
    match s0 with
    | String "-" s' => (true, s')
    | String "+" s' => (false, s')
    | _ => (false, s0)
    end in
  match s1 with
  | String c _ =>
      match digit_of c with
      | Some _ =>
          let (v, r) := scan_digits 0 s1 in
          Some (to_int (if neg then - v else v), r)
      | None => None
      end
  | EmptyString => None
  end.

(** The two keyword buffers of [main]; they live across the rounds of its
    loop. *)
Record locals : Type := mkLocals {
  keyword_action : string;
  keyword_group  : string
}.

Record scanned : Type := mkScanned {
  user_arg  : Z;
  sc_locals : locals;
  sc_alarm  : alarm_t
}.

Definition EOF : Z := -1.

Definition sscanf_line (line : string) (loc : locals) (blk : alarm_t)
  : scanned :=
  (* %[^(\n] *)
  match scanset not_paren_nl (String.length line) line with
  | (EmptyString, _) =>
      mkScanned (match line with EmptyString => EOF | _ => 0 end) loc blk
  | (ka, s1) =>
  let loc1 := mkLocals ka (keyword_group loc) in
  (* ( *)
  match literal "(" s1 with
  | None => mkScanned 1 loc1 blk
  | Some s2 =>
  (* %d *)
  match scan_int s2 with
  | None => mkScanned 1 loc1 blk
  | Some (id, s3) =>
  let blk2 := with_id_alarm blk id in
  (* ) *)
  match literal ")" s3 with
  | None => mkScanned 2 loc1 blk2
  | Some s4 =>
  (* : *)
  match literal ":" s4 with
  | None => mkScanned 2 loc1 blk2
  | Some s5 =>
  (* white space, then %[^(\n] *)
  let s6 := skip_spaces s5 in
  match scanset not_paren_nl (String.length s6) s6 with
  | (EmptyString, _) => mkScanned 2 loc1 blk2
  | (kg, s7) =>
  let loc3 := mkLocals ka kg in
  (* ( *)
  match literal "(" s7 with
  | None => mkScanned 3 loc3 blk2
  | Some s8 =>
  (* %d *)
  match scan_int s8 with
  | None => mkScanned 3 loc3 blk2
  | Some (gid, s9) =>
  let blk4 := with_id_group blk2 gid in
  (* ) *)
  match literal ")" s9 with
  | None => mkScanned 4 loc3 blk4
  | Some s10 =>
  (* %d *)
  match scan_int s10 with
  | None => mkScanned 4 loc3 blk4
  | Some (secs, s11) =>
  let blk5 := with_seconds blk4 secs in
  (* white space, then %128[^\n] *)
  match scanset not_nl 128 (skip_spaces s11) with
  | (EmptyString, _) => mkScanned 5 loc3 blk5
  | (msg, _) => mkScanned 6 loc3 (with_message blk5 msg)
  end end end end end end end end end end end.

(** ** [main] (lines 202-257) *)

Definition c_bool (b : bool) : Z := if b then 1 else 0.

(** Line 238: [user_arg == -1 == -1 || alarm->id_alarm < 1 ||
    alarm->id_group < 1].  [==] associates to the left. *)
Definition bad_command (user_arg : Z) (alarm : alarm_t) : bool :=
  (c_bool (user_arg =? -1) =? -1)
  || (id_alarm alarm <? 1) || (id_group alarm <? 1).

(** Lines 245-252, between [//CRITICAL BEGIN] and [//CRITICAL END]. *)
Definition critical_section (alarm : alarm_t) : M unit :=
  status <- pthread_mutex_lock ;;
  (if status =? 0 then ret tt else err_abort status "Lock mutex") ;;
  now <- time_now ;;
  alarm_insert (with_time alarm (now + seconds alarm)) ;;
  status <- pthread_mutex_unlock ;;
  if status =? 0 then ret tt else err_abort status "Unlock mutex".

(** Lines 244-254: the [else] branch of line 243. *)
Definition apply_command (fuel : nat) (sc : scanned) : M (ctl locals Z) :=
  input_validator (keyword_action (sc_locals sc))
                  (keyword_group (sc_locals sc)) (user_arg sc) ;;
  critical_section (sc_alarm sc) ;;
  alarm_group_display_creation fuel ;;
  sem_wait ;;
  ret (Continue (sc_locals sc)).

(** Lines 224-255: one round of the [while (1)] of [main]. *)
Definition main_iteration (fuel : nat) (loc : locals) : M (ctl locals Z) :=
  emit Prompt ;;
  got <- fgets ;;
  match got with
  | None => exit 0
  | Some line =>
      if Z.of_nat (String.length line) <=? 1 then ret (Continue loc)
      else
        block <- malloc ;;
        match block with
        | None => errno_abort "Allocate alarm"
        | Some blk =>
            let sc := sscanf_line line loc blk in
            if bad_command (user_arg sc) (sc_alarm sc)
            then
              emit BadCommand ;;
              free (sc_alarm sc) ;;
              ret (Continue (sc_locals sc))
            else apply_command fuel sc
        end
  end.

(** [keyword_action] and [keyword_group] start out indeterminate: [loc]. *)
Definition main (fuel : nat) (loc : locals) : M Z :=
  sem_init ;;
  status <- pthread_create "alarm_group_display_creation" ;;
  (if status =? 0 then ret tt
   else err_abort status "alarm group display creation") ;;
  status <- pthread_create "alarm_group_display_removal" ;;
  (if status =? 0 then ret tt
   else err_abort status "alarm group display removal") ;;
  while_loop fuel (main_iteration fuel) loc.

(** ** Observing a run *)

(** The events a run added to the trace of the world it started in. *)
Definition new_events {A : Type} (w : world) (o : outcome A) : list event :=
  skipn (List.length (w_trace w)) (w_trace (final o)).

Definition count_of (f : event -> bool) (l : list event) : nat :=
  List.length (filter f l).

Definition is_prompt (e : event) : bool :=
  match e with Prompt => true | _ => false end.

Definition is_bad_command (e : event) : bool :=
  match e with BadCommand => true | _ => false end.

Definition is_inserted (e : event) : bool :=
  match e with Inserted _ => true | _ => false end.

Definition is_delivered (e : event) : bool :=
  match e with Delivered _ _ => true | _ => false end.

Definition is_unlock (e : event) : bool :=
  match e with Called C_mutex_unlock _ => true | _ => false end.

(** A computation adds at most [n] events that satisfy [f]. *)
Definition emits_at_most {A : Type} (f : event -> bool) (n : nat) (m : M A)
  : Prop :=
  forall w, exists l,
    w_trace (final (m w)) = w_trace w ++ l /\ (count_of f l <= n)%nat.

(** Once an [Inserted] line is out, no prompt follows. *)
Fixpoint no_prompt_after_insert (l : list event) : Prop :=
  match l with
  | [] => True
  | Inserted _ :: tl => count_of is_prompt tl = 0%nat
  | _ :: tl => no_prompt_after_insert tl
  end.

(** The guarantee POSIX gives for [pthread_cond_timedwait]: [ETIMEDOUT]
    is returned only when the absolute time has passed. *)
Definition respects_abstime (e : event) : Prop :=
  match e with
  | Called (C_cond_timedwait tv_sec _) r =>
      r_status r = ETIMEDOUT -> tv_sec <= r_clock r
  | _ => True
  end.

(** A newline, and sample data for the examples below. *)
Definition nl : string := String "010" EmptyString.

(** A line of text as [fgets] returns it. *)
Definition line_of (s : string) : string := (s ++ nl)%string.

Definition zeroed : alarm_t := mkAlarm 0 0 0 "" 0.

Definition no_keywords : locals := mkLocals "" "".

Definition idle : shared := mkShared [] 0.

Definition ok (clock : Z) (sh : shared) : reply := mkReply 0 clock sh.

(** Two Start_Alarm lines on standard input, and an environment in which
    every call succeeds: the alarm inserted by [main] is still at the head
    of the list when [main] enters the dispatcher, and its timed wait runs
    into the deadline. *)
Definition two_starts : world :=
  mkWorld idle []
    [line_of "Start_Alarm(1): Group(7) 5 hello";
     line_of "Start_Alarm(2): Group(7) 2 world"]
    [zeroed; zeroed]
    [ok 99 idle; ok 99 idle; ok 99 idle;
     ok 100 idle; ok 100 idle; ok 100 idle; ok 100 idle;
     ok 100 (mkShared [mkAlarm 5 1 7 "hello" 105] 105); ok 100 idle;
     mkReply ETIMEDOUT 105 (mkShared [] 105)].

Definition is_output (e : event) : bool :=
  match e with Called _ _ => false | _ => true end.

(** ** Worlds and traces met along a run *)

(** The world in which a wait returned with reply [r]. *)
Definition woken (w : world) (c : call) (r : reply) (env : list reply)
  : world :=
  mkWorld (r_shared r) (w_trace w ++ [Called c r]) (w_stdin w) (w_heap w) env.

(** What the world looks like when [main] has printed the prompt, read
    the line and taken a block for it. *)
Definition after_read (w : world) (rest : list string) (heap : list alarm_t)
  : world :=
  mkWorld (w_shared w) (w_trace w ++ [Prompt]) rest heap (w_env w).

(** What follows [alarm_insert] in the [else] branch of [main]: lines
    252-254 and the end of the round. *)
Definition after_insert (fuel : nat) (sc : scanned) : M (ctl locals Z) :=
  status <- pthread_mutex_unlock ;;
  (if status =? 0 then ret tt else err_abort status "Unlock mutex") ;;
  alarm_group_display_creation fuel ;;
  sem_wait ;;
  ret (Continue (sc_locals sc)).

(** The world in which [main] holds the mutex and has read the clock. *)
Definition locked (w : world) (rl rt : reply) (env : list reply) : world :=
  mkWorld (r_shared rl)
          (w_trace w ++ [Called C_mutex_lock rl; Called C_time rt])
          (w_stdin w) (w_heap w) env.

(** The events of a run of [main]: first rounds that print the prompt and
    perhaps "Bad command", then at most one round that does not complete. *)
Definition rounds_then_one (l : list event) : Prop :=
  exists pre post,
    l = pre ++ post /\
    count_of is_inserted pre = 0%nat /\
    count_of is_unlock pre = 0%nat /\
    (post = [] \/
     exists l', post = Prompt :: l' /\
                count_of is_prompt l' = 0%nat /\
                (count_of is_unlock l' <= 1)%nat).

Definition emits_rounds {A : Type} (m : M A) : Prop :=
  forall w, exists l,
    w_trace (final (m w)) = w_trace w ++ l /\ rounds_then_one l.

(** ** Further observations *)

Definition is_signal (e : event) : bool :=
  match e with Called C_cond_signal _ => true | _ => false end.


(** The line the dispatcher prints for an alarm (line 157). *)
Definition delivery_of (a : alarm_t) : event :=
  Delivered (seconds a) (message a).


(** Several calls of [alarm_insert] in a row, under the mutex. *)
Fixpoint alarm_insert_all (alarms : list alarm_t) : M unit :=
  match alarms with
  | [] => ret tt
  | a :: tl => alarm_insert a ;; alarm_insert_all tl
  end.

(** ** Command lines *)

(** The command a flag of [input_validator] stands for, and the number
    of items [sscanf] must have matched for it. *)
Definition command_keyword (flag : Z) : string :=
  match flag with
  | 1 => "Cancel_Alarm"
  | 2 => "View_Alarms"
  | 3 => "Start_Alarm"
  | 4 => "Change_Alarm"
  | 5 => "Suspend_Alarm"
  | 6 => "Reactivate_Alarm"
  | _ => ""
  end.

Definition command_items (flag : Z) : Z :=
  match flag with
  | 1 | 5 | 6 => 2
  | 2 => 1
  | 3 | 4 => 6
  | _ => 0
  end.

Definition needs_group (flag : Z) : bool := (flag =? 3) || (flag =? 4).

Fixpoint all_chars (p : ascii -> bool) (s : string) : bool :=
  match s with
  | EmptyString => true
  | String c s' => p c && all_chars p s'
  end.

Definition starts_with (p : ascii -> bool) (s : string) : bool :=
  match s with
  | String c _ => p c
  | EmptyString => false
  end.

Definition is_digit (c : ascii) : bool :=
  match digit_of c with Some _ => true | None => false end.

(** A keyword as [%[^(\n]] reads it back: not empty, without "(" and
    newline, and not starting with white space. *)
Definition keyword (s : string) : Prop :=
  s <> EmptyString /\ all_chars not_paren_nl s = true /\
  starts_with isspace s = false.


(** The decimal numeral of a number. *)
Definition decimal (n : nat) : string :=
  DecimalString.NilEmpty.string_of_uint (Nat.to_uint n).


Definition short_command (kw : string) (a : nat) : string :=
  (kw ++ "(" ++ decimal a ++ ")" ++ nl)%string.

Definition bare_command (kw : string) : string := (kw ++ nl)%string.

(** The world in which [main] has created its two threads. *)
Definition started (w : world) (r0 r1 r2 : reply) (env : list reply)
  : world :=
  mkWorld (w_shared w)
          (w_trace w ++
           [Called C_sem_init r0;
            Called (C_create "alarm_group_display_creation") r1;
            Called (C_create "alarm_group_display_removal") r2])
          (w_stdin w) (w_heap w) env.

(** A line that line 238 turns down when it is read into [blk]. *)
Definition rejected (line : string) (blk : alarm_t) : Prop :=
  1 < Z.of_nat (String.length line) /\
  forall loc,
    bad_command (user_arg (sscanf_line line loc blk))
                (sc_alarm (sscanf_line line loc blk)) = true.

(** * Properties *)

(** ** Lists *)

Lemma deadline_id_ltb_spec a b : deadline_id_ltb a b = true <-> deadline_id_lt a b.
Proof.
  unfold deadline_id_ltb, deadline_id_lt.
  rewrite orb_true_iff, andb_true_iff, !Z.ltb_lt, Z.eqb_eq. tauto.
Qed.

Lemma adjacentb_spec l :
  adjacentb deadline_id_ltb l = true <-> adjacent deadline_id_lt l.
Proof.
  induction l as [|a [|b tl] IH]; simpl; try tauto.
  simpl in IH. rewrite andb_true_iff, deadline_id_ltb_spec, IH. tauto.
Qed.

Lemma insert_in_order_perm alarm l :
  Permutation (insert_in_order alarm l) (alarm :: l).
Proof.
  induction l as [|next rest IH]; simpl; [reflexivity|].
  destruct (time next >=? time alarm); [reflexivity|].
  rewrite IH. apply perm_swap.
Qed.

Lemma insert_in_order_head alarm l :
  exists x tl, insert_in_order alarm l = x :: tl /\
               (x = alarm \/ (exists tl0, l = x :: tl0 /\ time x < time alarm)).
Proof.
  destruct l as [|next rest]; simpl.
  - eauto.
  - destruct (time next >=? time alarm) eqn:E.
    + eauto.
    + do 2 eexists. split; [reflexivity|]. right. eexists. split; [reflexivity|].
      rewrite Z.geb_leb, Z.leb_gt in E. lia.
Qed.

Lemma insert_in_order_sorted alarm l :
  adjacent time_le l -> adjacent time_le (insert_in_order alarm l).
Proof.
  induction l as [|next rest IH]; simpl; [tauto|].
  intros Hs. destruct (time next >=? time alarm) eqn:E.
  - rewrite Z.geb_leb, Z.leb_le in E. split; [exact E|exact Hs].
  - rewrite Z.geb_leb, Z.leb_gt in E.
    assert (Hrest : adjacent time_le rest) by (destruct rest; simpl in *; tauto).
    specialize (IH Hrest).
    destruct (insert_in_order_head alarm rest) as (x & tl & Hx & Hcase).
    rewrite Hx in *. split; [|exact IH].
    unfold time_le. destruct Hcase as [->|(tl0 & -> & _)]; [lia|].
    simpl in Hs. unfold time_le in Hs. tauto.
Qed.

Lemma insert_in_order_split alarm l :
  exists before after,
    l = before ++ after /\
    insert_in_order alarm l = before ++ alarm :: after /\
    Forall (fun x => time x < time alarm) before /\
    (adjacent time_le l -> Forall (fun x => time alarm <= time x) after).
Proof.
  induction l as [|next rest IH]; simpl.
  - exists [], []. repeat split; constructor.
  - destruct (time next >=? time alarm) eqn:E.
    + rewrite Z.geb_leb, Z.leb_le in E.
      exists [], (next :: rest). repeat split; [constructor|].
      intros Hs. constructor; [exact E|].
      clear IH. revert next E Hs.
      induction rest as [|y rest IHr]; intros next E Hs; constructor.
      * simpl in Hs. unfold time_le in Hs. lia.
      * apply (IHr y); [simpl in Hs; unfold time_le in Hs; lia|].
        simpl in Hs. tauto.
    + rewrite Z.geb_leb, Z.leb_gt in E.
      destruct IH as (before & after & -> & Hins & Hb & Ha).
      exists (next :: before), after. rewrite Hins. repeat split.
      * constructor; [lia|exact Hb].
      * intros Hs. apply Ha. destruct (before ++ after); simpl in *; tauto.
Qed.

(** ** Traces *)

Lemma new_events_app {A} (w : world) (o : outcome A) l :
  w_trace (final o) = w_trace w ++ l -> new_events w o = l.
Proof.
  intros H. unfold new_events. rewrite H.
  rewrite skipn_app, skipn_all, Nat.sub_diag. reflexivity.
Qed.

Lemma count_of_app f l1 l2 :
  count_of f (l1 ++ l2) = (count_of f l1 + count_of f l2)%nat.
Proof. unfold count_of. rewrite filter_app, length_app. reflexivity. Qed.

Lemma count_of_zero f l :
  count_of f l = 0%nat <-> Forall (fun e => f e = false) l.
Proof.
  unfold count_of. induction l as [|e l IH]; simpl.
  - split; [constructor|reflexivity].
  - destruct (f e) eqn:E; simpl.
    + split; [discriminate|]. intros H. inversion H; congruence.
    + rewrite IH. split; [intros; constructor; assumption|].
      intros H. inversion H; assumption.
Qed.

Lemma emits_ret {A} f (a : A) : emits_at_most f 0 (ret a).
Proof. intros w. exists []. simpl. rewrite app_nil_r. split; [reflexivity|apply Nat.le_refl]. Qed.

Lemma emits_weaken {A} f n n' (m : M A) :
  (n <= n')%nat -> emits_at_most f n m -> emits_at_most f n' m.
Proof.
  intros Hle H w. destruct (H w) as (l & Hl & Hc). exists l. split; [exact Hl|lia].
Qed.

Lemma emits_bind {A B} f n1 n2 (m : M A) (k : A -> M B) :
  emits_at_most f n1 m -> (forall a, emits_at_most f n2 (k a)) ->
  emits_at_most f (n1 + n2) (bind m k).
Proof.
  intros Hm Hk w. destruct (Hm w) as (l1 & Hl1 & Hc1). unfold bind.
  destruct (m w) as [a w'| | | | | ]; simpl in *;
    try (exists l1; split; [exact Hl1|lia]).
  destruct (Hk a w') as (l2 & Hl2 & Hc2).
  exists (l1 ++ l2). rewrite Hl2, Hl1, app_assoc, count_of_app.
  split; [reflexivity|lia].
Qed.

Lemma emits_while {S A} f (body : S -> M (ctl S A)) :
  (forall s, emits_at_most f 0 (body s)) ->
  forall fuel s, emits_at_most f 0 (while_loop fuel body s).
Proof.
  intros Hb fuel. induction fuel as [|fuel IH]; intros s w; simpl.
  - exists []. rewrite app_nil_r. split; [reflexivity|apply Nat.le_refl].
  - destruct (Hb s w) as (l1 & Hl1 & Hc1).
    destruct (body s w) as [[s'|a] w'| | | | | ]; simpl in *;
      try (exists l1; split; [exact Hl1|lia]).
    destruct (IH s' w') as (l2 & Hl2 & Hc2).
    exists (l1 ++ l2). rewrite Hl2, Hl1, app_assoc, count_of_app.
    split; [reflexivity|lia].
Qed.

Lemma emits_emit f e : emits_at_most f (count_of f [e]) (emit e).
Proof. intros w. exists [e]. split; [reflexivity|apply Nat.le_refl]. Qed.

Lemma emits_env_call f c :
  (forall r, f (Called c r) = false) -> emits_at_most f 0 (env_call c).
Proof.
  intros Hf w. unfold env_call. destruct (w_env w) as [|r env]; simpl.
  - exists []. rewrite app_nil_r. split; [reflexivity|apply Nat.le_refl].
  - exists [Called c r]. split; [reflexivity|].
    unfold count_of. simpl. rewrite Hf. apply Nat.le_refl.
Qed.

Lemma emits_silent {A} f (m : M A) :
  (forall w, w_trace (final (m w)) = w_trace w) -> emits_at_most f 0 m.
Proof.
  intros H w. exists []. rewrite app_nil_r. split; [apply H|apply Nat.le_refl].
Qed.

Lemma emits_bind0 {A B} f (m : M A) (k : A -> M B) :
  emits_at_most f 0 m -> (forall a, emits_at_most f 0 (k a)) ->
  emits_at_most f 0 (bind m k).
Proof. intros Hm Hk. apply (emits_bind f 0 0 m k Hm Hk). Qed.

Lemma emits_emit0 f e : f e = false -> emits_at_most f 0 (emit e).
Proof.
  intros H. eapply emits_weaken; [|apply emits_emit].
  unfold count_of. simpl. rewrite H. apply Nat.le_refl.
Qed.

(** The dispatcher and [alarm_insert] print no prompt and never unlock the
    mutex: whatever [f] singles out among the events, if it is none of
    theirs they add no such event. *)
Section DispatcherEvents.

Variable f : event -> bool.
Hypothesis f_inserted : forall a, f (Inserted a) = false.
Hypothesis f_delivered : forall s m, f (Delivered s m) = false.
Hypothesis f_called :
  forall c r, c <> C_mutex_unlock -> f (Called c r) = false.

Ltac quiet :=
  repeat first
    [ apply emits_ret
    | apply emits_bind0; [|intros ?]
    | apply emits_emit0; solve [apply f_inserted | apply f_delivered]
    | apply emits_env_call; intros ?; apply f_called; discriminate
    | apply emits_silent; intros ?; reflexivity
    | match goal with
      | |- emits_at_most _ _ (if ?b then _ else _) => destruct b
      | |- emits_at_most _ _ (match ?l with [] => _ | _ :: _ => _ end) =>
          destruct l
      end ].

Lemma alarm_insert_quiet alarm : emits_at_most f 0 (alarm_insert alarm).
Proof. unfold alarm_insert. quiet. Qed.

Lemma wait_for_work_quiet fuel : emits_at_most f 0 (wait_for_work fuel).
Proof. unfold wait_for_work. apply emits_while. intros _. quiet. Qed.

Lemma wait_for_deadline_quiet fuel alarm :
  emits_at_most f 0 (wait_for_deadline fuel alarm).
Proof. unfold wait_for_deadline. apply emits_while. intros _. quiet. Qed.

Lemma dispatch_iteration_quiet fuel :
  emits_at_most f 0 (dispatch_iteration fuel).
Proof.
  unfold dispatch_iteration. apply emits_bind0; [quiet|intros _].
  apply emits_bind0; [apply wait_for_work_quiet|intros _].
  apply emits_bind0; [quiet|intros sh].
  destruct (alarm_list sh) as [|alarm link]; [quiet|].
  apply emits_bind0; [quiet|intros _].
  apply emits_bind0; [quiet|intros now].
  apply emits_bind0; [|intros expired; quiet].
  destruct (time alarm >? now); [|quiet].
  apply emits_bind0; [quiet|intros _].
  apply emits_bind0; [apply wait_for_deadline_quiet|intros expired].
  apply emits_bind0; [|intros _; quiet].
  destruct (negb expired); [apply alarm_insert_quiet|quiet].
Qed.

Lemma dispatcher_quiet fuel :
  emits_at_most f 0 (alarm_group_display_creation fuel).
Proof.
  unfold alarm_group_display_creation.
  apply emits_bind0; [quiet|intros status].
  apply emits_bind0; [quiet|intros _].
  apply emits_while. intros _.
  apply emits_bind0; [apply dispatch_iteration_quiet|intros _; quiet].
Qed.

End DispatcherEvents.

(** ** Running the pieces *)

Lemma bind_done {A B} (m : M A) (k : A -> M B) w b w' :
  bind m k w = Done b w' -> exists a w1, m w = Done a w1 /\ k a w1 = Done b w'.
Proof.
  unfold bind. destruct (m w) as [a w1| | | | | ]; try discriminate. eauto.
Qed.

Lemma while_loop_never_done {S A} (body : S -> M (ctl S A)) :
  (forall s w a w', body s w <> Done (Break a) w') ->
  forall fuel s w a w', while_loop fuel body s w <> Done a w'.
Proof.
  intros Hb fuel. induction fuel as [|fuel IH]; intros s w a w'; simpl.
  - discriminate.
  - destruct (body s w) as [[s'|a'] w1| | | | | ] eqn:E; try discriminate.
    + apply IH.
    + exfalso. exact (Hb _ _ _ _ E).
Qed.

Lemma dispatcher_never_done fuel w r w' :
  alarm_group_display_creation fuel w <> Done r w'.
Proof.
  unfold alarm_group_display_creation. intros H.
  apply bind_done in H. destruct H as (status & w1 & _ & H).
  apply bind_done in H. destruct H as (u & w2 & _ & H).
  revert H. apply while_loop_never_done. clear. intros _ w a w' H.
  apply bind_done in H. destruct H as (u & w1 & _ & H). discriminate.
Qed.

Lemma apply_command_never_done fuel sc w c w' :
  apply_command fuel sc w <> Done c w'.
Proof.
  unfold apply_command. intros H.
  apply bind_done in H. destruct H as (flag & w1 & _ & H).
  apply bind_done in H. destruct H as (u & w2 & _ & H).
  apply bind_done in H. destruct H as (r & w3 & H & _).
  exact (dispatcher_never_done _ _ _ _ H).
Qed.

Lemma alarm_insert_run alarm w :
  alarm_insert alarm w =
  let l := insert_in_order alarm (alarm_list (w_shared w)) in
  let cur := current_alarm (w_shared w) in
  let t := w_trace w ++ [Inserted alarm] in
  if (cur =? 0) || (time alarm <? cur)
  then
    match w_env w with
    | [] =>
        Starved (mkWorld (mkShared l (time alarm)) t (w_stdin w) (w_heap w) [])
    | r :: env =>
        let w' := mkWorld (mkShared l (time alarm))
                          (t ++ [Called C_cond_signal r])
                          (w_stdin w) (w_heap w) env in
        if r_status r =? 0 then Done tt w'
        else Aborted (r_status r) "Signal cond" w'
    end
  else Done tt (mkWorld (mkShared l cur) t (w_stdin w) (w_heap w) (w_env w)).
Proof.
  unfold alarm_insert, bind, get_shared, set_alarm_list, set_current_alarm,
    set_shared, emit, pthread_cond_signal, status_of, env_call, ret, err_abort,
    with_current, with_alarm_list, log, put_shared.
  simpl.
  destruct ((current_alarm (w_shared w) =? 0)
            || (time alarm <? current_alarm (w_shared w))); [|reflexivity].
  simpl. destruct (w_env w) as [|r env]; [reflexivity|]. simpl.
  destruct (r_status r =? 0); reflexivity.
Qed.

Lemma alarm_insert_list alarm w :
  alarm_list (w_shared (final (alarm_insert alarm w))) =
  insert_in_order alarm (alarm_list (w_shared w)).
Proof.
  rewrite alarm_insert_run. cbv zeta.
  destruct (_ || _); [|reflexivity].
  destruct (w_env w) as [|r env]; [reflexivity|].
  destruct (r_status r =? 0); reflexivity.
Qed.

Lemma alarm_insert_trace alarm w :
  exists l, w_trace (final (alarm_insert alarm w)) =
            w_trace w ++ Inserted alarm :: l.
Proof.
  rewrite alarm_insert_run. cbv zeta.
  destruct (_ || _); [|exists []; reflexivity].
  destruct (w_env w) as [|r env]; [exists []; reflexivity|].
  exists [Called C_cond_signal r].
  destruct (r_status r =? 0); simpl; rewrite <- app_assoc; reflexivity.
Qed.

Lemma alarm_insert_outcome alarm w :
  (exists w', alarm_insert alarm w = Done tt w') \/
  (exists code w', alarm_insert alarm w = Aborted code "Signal cond" w') \/
  (exists w', alarm_insert alarm w = Starved w').
Proof.
  rewrite alarm_insert_run. cbv zeta.
  destruct (_ || _); [|eauto].
  destruct (w_env w) as [|r env]; [eauto|].
  destruct (r_status r =? 0); eauto.
Qed.

(** ** The order of the alarm list *)

(** C2, as the code has it: [alarm_insert] compares deadlines only.  On a
    list in ascending order of deadline the list is again in ascending
    order of deadline after the call (each alarm's deadline is at most the
    next one's); the new alarm sits behind every alarm with a strictly
    smaller deadline and in front of every alarm with an equal or larger
    one, whatever the alarm ids are. *)
Theorem alarm_insert_keeps_deadline_order (alarm : alarm_t) (w : world) :
  adjacent time_le (alarm_list (w_shared w)) ->
  let after := alarm_list (w_shared (final (alarm_insert alarm w))) in
  adjacent time_le after /\
  exists earlier later,
    alarm_list (w_shared w) = earlier ++ later /\
    after = earlier ++ alarm :: later /\
    Forall (fun x => time x < time alarm) earlier /\
    Forall (fun x => time alarm <= time x) later.
Proof.
  intros Hs after. subst after. rewrite alarm_insert_list. split.
  - apply insert_in_order_sorted. exact Hs.
  - destruct (insert_in_order_split alarm (alarm_list (w_shared w)))
      as (earlier & later & Hl & Hins & He & Hlater).
    exists earlier, later. auto.
Qed.

Lemma alarm_insert_keeps_deadline_order_witness :
  let w := mkWorld (mkShared [mkAlarm 5 1 1 "a" 10; mkAlarm 9 2 1 "b" 20] 10)
                   [] [] [] [] in
  let alarm := mkAlarm 7 3 1 "c" 15 in
  adjacent time_le (alarm_list (w_shared w)) /\
  adjacent time_le (alarm_list (w_shared (final (alarm_insert alarm w)))).
Proof.
  intros w alarm.
  assert (H : adjacent time_le (alarm_list (w_shared w)))
    by (simpl; unfold time_le; simpl; lia).
  split; [exact H|].
  exact (proj1 (alarm_insert_keeps_deadline_order alarm w H)).
Defined.

(** C2 fails as stated: an alarm whose deadline ties with the head of the
    list is linked in front of it although its id is larger. *)
Lemma alarm_insert_ignores_alarm_id :
  let w := mkWorld (mkShared [mkAlarm 5 1 1 "a" 10] 10) [] [] [] [] in
  let alarm := mkAlarm 5 2 1 "b" 10 in
  adjacent deadline_id_lt (alarm_list (w_shared w)) /\
  exists w',
    alarm_insert alarm w = Done tt w' /\
    alarm_list (w_shared w') = [mkAlarm 5 2 1 "b" 10; mkAlarm 5 1 1 "a" 10] /\
    ~ adjacent deadline_id_lt (alarm_list (w_shared w')).
Proof.
  intros w alarm. split; [exact I|].
  eexists. split; [reflexivity|]. split; [reflexivity|].
  rewrite <- adjacentb_spec. discriminate.
Qed.

(** ** Duplicate ids *)

(** C5, as the code has it: [alarm_insert] never looks at [id_alarm].  For
    every store and every alarm, also one whose id is already in the
    store, the alarm is linked into the list (the list after the call is
    the old one plus the new alarm), the "Inserted" line is printed, and
    the call can only end early through a failing [pthread_cond_signal]. *)
Theorem alarm_insert_never_rejects (alarm : alarm_t) (w : world) :
  let o := alarm_insert alarm w in
  Permutation (alarm_list (w_shared (final o)))
              (alarm :: alarm_list (w_shared w)) /\
  (forall x, In x (alarm_list (w_shared w)) ->
             In x (alarm_list (w_shared (final o)))) /\
  (exists l, new_events w o = Inserted alarm :: l) /\
  ((exists w', o = Done tt w') \/
   (exists code w', o = Aborted code "Signal cond" w') \/
   (exists w', o = Starved w')).
Proof.
  cbv zeta. rewrite alarm_insert_list.
  split; [apply insert_in_order_perm|].
  split.
  - intros x Hx. apply (Permutation_in x (Permutation_sym (insert_in_order_perm alarm _))).
    right. exact Hx.
  - split; [|apply alarm_insert_outcome].
    destruct (alarm_insert_trace alarm w) as (l & Hl).
    exists l. apply new_events_app. exact Hl.
Qed.

(** C5 fails as stated: inserting an alarm whose id is in the store
    succeeds and changes the store. *)
Lemma alarm_insert_accepts_duplicate_id :
  let first := mkAlarm 5 1 1 "first" 10 in
  let second := mkAlarm 3 1 1 "second" 20 in
  let w := mkWorld (mkShared [first] 10) [] [] [] [] in
  In first (alarm_list (w_shared w)) /\
  id_alarm second = id_alarm first /\
  exists w',
    alarm_insert second w = Done tt w' /\
    alarm_list (w_shared w') = [first; second] /\
    alarm_list (w_shared w') <> alarm_list (w_shared w).
Proof.
  intros first second w. split; [left; reflexivity|]. split; [reflexivity|].
  eexists. split; [reflexivity|]. split; [reflexivity|]. discriminate.
Qed.

(** ** The command loop *)

Lemma critical_section_no_prompt alarm :
  emits_at_most is_prompt 0 (critical_section alarm).
Proof.
  unfold critical_section.
  repeat first
    [ apply emits_ret
    | apply alarm_insert_quiet; intros; reflexivity
    | apply emits_bind0; [|intros ?]
    | apply emits_env_call; intros ?; reflexivity
    | apply emits_silent; intros ?; reflexivity
    | match goal with
      | |- emits_at_most _ _ (if ?b then _ else _) => destruct b
      end ].
Qed.

Lemma critical_section_one_unlock alarm :
  emits_at_most is_unlock 1 (critical_section alarm).
Proof.
  assert (Hq : forall c r, c <> C_mutex_unlock -> is_unlock (Called c r) = false)
    by (intros [] r Hc; try reflexivity; congruence).
  unfold critical_section.
  apply (emits_bind is_unlock 0 1).
  { apply emits_bind0; [|intros r].
    - apply emits_env_call. intros r. reflexivity.
    - apply emits_bind0; [apply emits_silent; reflexivity|intros _; apply emits_ret]. }
  intros status. apply (emits_bind is_unlock 0 1).
  { destruct (status =? 0); [apply emits_ret|apply emits_silent; reflexivity]. }
  intros _. apply (emits_bind is_unlock 0 1).
  { apply emits_bind0; [|intros r; apply emits_ret].
    apply emits_env_call. intros r. reflexivity. }
  intros now. apply (emits_bind is_unlock 0 1).
  { apply alarm_insert_quiet; first [exact Hq|intros; reflexivity]. }
  intros _. apply (emits_bind is_unlock 1 0).
  { apply (emits_bind is_unlock 1 0); [|intros r; apply emits_ret].
    intros w. unfold env_call. destruct (w_env w) as [|r env]; simpl.
    - exists []. rewrite app_nil_r. split; [reflexivity|auto].
    - exists [Called C_mutex_unlock r]. split; [reflexivity|auto]. }
  intros status'.
  destruct (status' =? 0); [apply emits_ret|apply emits_silent; reflexivity].
Qed.

Lemma input_validator_silent ka kg ua w :
  w_trace (final (input_validator ka kg ua w)) = w_trace w.
Proof.
  unfold input_validator.
  repeat match goal with
         | |- context [if ?b then _ else _] => destruct b
         end; reflexivity.
Qed.

Lemma apply_command_no_prompt fuel sc :
  emits_at_most is_prompt 0 (apply_command fuel sc).
Proof.
  unfold apply_command.
  apply emits_bind0; [apply emits_silent, input_validator_silent|intros _].
  apply emits_bind0; [apply critical_section_no_prompt|intros _].
  apply emits_bind0; [apply dispatcher_quiet; intros; reflexivity|intros _].
  apply emits_bind0; [|intros _; apply emits_ret].
  apply emits_bind0; [|intros r; apply emits_ret].
  apply emits_env_call. intros r. reflexivity.
Qed.

Lemma apply_command_one_unlock fuel sc :
  emits_at_most is_unlock 1 (apply_command fuel sc).
Proof.
  assert (Hq : forall c r, c <> C_mutex_unlock -> is_unlock (Called c r) = false)
    by (intros [] r Hc; try reflexivity; congruence).
  unfold apply_command.
  apply (emits_bind is_unlock 0 1);
    [apply emits_silent, input_validator_silent|intros _].
  apply (emits_bind is_unlock 1 0);
    [apply critical_section_one_unlock|intros _].
  apply emits_bind0;
    [apply dispatcher_quiet; first [exact Hq|intros; reflexivity]|intros _].
  apply emits_bind0; [|intros _; apply emits_ret].
  apply emits_bind0; [|intros r; apply emits_ret].
  apply emits_env_call. intros r. reflexivity.
Qed.

Lemma main_iteration_run fuel loc w :
  main_iteration fuel loc w =
  match w_stdin w with
  | [] => Exited 0 (after_read w [] (w_heap w))
  | line :: rest =>
      if Z.of_nat (String.length line) <=? 1
      then Done (Continue loc) (after_read w rest (w_heap w))
      else
        match w_heap w with
        | [] => Aborted ENOMEM "Allocate alarm" (after_read w rest [])
        | blk :: heap =>
            let sc := sscanf_line line loc blk in
            if bad_command (user_arg sc) (sc_alarm sc)
            then Done (Continue (sc_locals sc))
                      (mkWorld (w_shared w) (w_trace w ++ [Prompt; BadCommand])
                               rest heap (w_env w))
            else apply_command fuel sc (after_read w rest heap)
        end
  end.
Proof.
  unfold main_iteration, bind, emit, fgets, malloc, exit, errno_abort, free,
    ret, after_read, log. simpl.
  destruct (w_stdin w) as [|line rest]; [reflexivity|]. simpl.
  destruct (Z.of_nat (String.length line) <=? 1); [reflexivity|]. simpl.
  destruct (w_heap w) as [|blk heap]; [reflexivity|]. simpl.
  destruct (bad_command _ _); [|reflexivity].
  simpl. rewrite <- app_assoc. reflexivity.
Qed.

Lemma main_iteration_events fuel loc w :
  exists l,
    w_trace (final (main_iteration fuel loc w)) = w_trace w ++ Prompt :: l /\
    count_of is_prompt l = 0%nat /\
    ((exists loc' w', main_iteration fuel loc w = Done (Continue loc') w' /\
                      count_of is_inserted l = 0%nat /\
                      count_of is_unlock l = 0%nat) \/
     ((forall c w', main_iteration fuel loc w <> Done c w') /\
      (count_of is_unlock l <= 1)%nat)).
Proof.
  rewrite main_iteration_run.
  destruct (w_stdin w) as [|line rest].
  { exists []. split; [reflexivity|]. split; [reflexivity|].
    right. split; [discriminate|auto]. }
  destruct (Z.of_nat (String.length line) <=? 1).
  { exists []. split; [reflexivity|]. split; [reflexivity|]. left. eauto. }
  destruct (w_heap w) as [|blk heap].
  { exists []. split; [reflexivity|]. split; [reflexivity|].
    right. split; [discriminate|auto]. }
  cbv zeta. destruct (bad_command _ _).
  { exists [BadCommand]. split; [reflexivity|]. split; [reflexivity|].
    left. eauto. }
  set (sc := sscanf_line line loc blk).
  set (w1 := after_read w rest heap).
  destruct (apply_command_no_prompt fuel sc w1) as (l & Hl & Hp).
  destruct (apply_command_one_unlock fuel sc w1) as (l' & Hl' & Hu).
  assert (l' = l) by (rewrite Hl in Hl'; apply app_inv_head in Hl'; auto).
  subst l'. exists l. split.
  - rewrite Hl. unfold w1, after_read. simpl. rewrite <- app_assoc. reflexivity.
  - split; [lia|]. right. split; [apply apply_command_never_done|exact Hu].
Qed.

Lemma main_loop_rounds fuel n :
  forall loc, emits_rounds (while_loop n (main_iteration fuel) loc).
Proof.
  induction n as [|n IH]; intros loc w.
  - exists []. simpl. rewrite app_nil_r. split; [reflexivity|].
    exists [], []. repeat split; auto.
  - destruct (main_iteration_events fuel loc w)
      as (l & Hl & Hp & [(loc' & w' & Hdone & Hi & Hu)|(Hnot & Hu)]).
    + simpl. rewrite Hdone in *. simpl in Hl.
      destruct (IH loc' w') as (l2 & Hl2 & pre & post & -> & Hi2 & Hu2 & Hpost).
      exists ((Prompt :: l) ++ pre ++ post). split.
      * rewrite Hl2, Hl, <- app_assoc. reflexivity.
      * exists ((Prompt :: l) ++ pre), post.
        rewrite <- app_assoc. split; [reflexivity|].
        rewrite !count_of_app.
        change (Prompt :: l) with ([Prompt] ++ l). rewrite !count_of_app.
        repeat split; try exact Hpost; unfold count_of at 1; simpl; lia.
    + exists (Prompt :: l). split.
      * simpl. destruct (main_iteration fuel loc w) as [[s'|a] w'| | | | | ];
          try exact Hl; exfalso; eapply Hnot; reflexivity.
      * exists [], (Prompt :: l). repeat split; auto. right. eauto.
Qed.

Lemma emits_rounds_bind {A B} (m : M A) (k : A -> M B) :
  emits_at_most is_inserted 0 m -> emits_at_most is_unlock 0 m ->
  (forall a, emits_rounds (k a)) -> emits_rounds (bind m k).
Proof.
  intros Hi Hu Hk w.
  destruct (Hi w) as (l1 & Hl1 & Hc1). destruct (Hu w) as (l1' & Hl1' & Hc1').
  assert (l1' = l1) by (rewrite Hl1 in Hl1'; apply app_inv_head in Hl1'; auto).
  subst l1'. unfold bind.
  destruct (m w) as [a w'| | | | | ]; simpl in *;
    try (exists l1; split; [exact Hl1|]; exists l1, [];
         rewrite app_nil_r; repeat split; auto; lia).
  destruct (Hk a w') as (l2 & Hl2 & pre & post & -> & Hi2 & Hu2 & Hpost).
  exists (l1 ++ pre ++ post). split.
  - rewrite Hl2, Hl1, <- app_assoc. reflexivity.
  - exists (l1 ++ pre), post. rewrite <- app_assoc, !count_of_app.
    repeat split; try exact Hpost; lia.
Qed.

Lemma main_rounds fuel loc : emits_rounds (main fuel loc).
Proof.
  unfold main.
  repeat (apply emits_rounds_bind;
          [ first [ apply emits_bind0;
                    [apply emits_env_call; intros ?; reflexivity
                    |intros ?; apply emits_ret]
                  | match goal with
                    | |- emits_at_most _ _ (if ?b then _ else _) =>
                        destruct b;
                        [apply emits_ret|apply emits_silent; reflexivity]
                    end ]
          | first [ apply emits_bind0;
                    [apply emits_env_call; intros ?; reflexivity
                    |intros ?; apply emits_ret]
                  | match goal with
                    | |- emits_at_most _ _ (if ?b then _ else _) =>
                        destruct b;
                        [apply emits_ret|apply emits_silent; reflexivity]
                    end ]
          | intros ? ]).
  apply main_loop_rounds.
Qed.

Lemma no_prompt_after_insert_quiet l :
  count_of is_prompt l = 0%nat -> no_prompt_after_insert l.
Proof.
  induction l as [|e l IH]; [intros _; exact I|].
  change (e :: l) with ([e] ++ l). rewrite count_of_app. intros H.
  unfold count_of at 1 in H. simpl in H.
  destruct e; simpl in *; first [discriminate | apply IH; lia | lia].
Qed.

Lemma no_prompt_after_insert_app pre post :
  count_of is_inserted pre = 0%nat ->
  no_prompt_after_insert post -> no_prompt_after_insert (pre ++ post).
Proof.
  induction pre as [|e pre IH]; [intros _ H; exact H|].
  change (e :: pre) with ([e] ++ pre). rewrite count_of_app. intros H Hpost.
  unfold count_of at 1 in H. simpl in H.
  destruct e; simpl in *; first [discriminate | apply IH; [lia|exact Hpost]].
Qed.

Lemma rounds_then_one_ok l :
  rounds_then_one l ->
  no_prompt_after_insert l /\ (count_of is_unlock l <= 1)%nat.
Proof.
  intros (pre & post & -> & Hi & Hu & Hpost). split.
  - apply no_prompt_after_insert_app; [exact Hi|].
    destruct Hpost as [->|(l' & -> & Hp & _)]; [exact I|].
    simpl. apply no_prompt_after_insert_quiet. exact Hp.
  - rewrite count_of_app.
    destruct Hpost as [->|(l' & -> & _ & Hu')]; [simpl; unfold count_of at 2; simpl; lia|].
    change (Prompt :: l') with ([Prompt] ++ l'). rewrite count_of_app.
    unfold count_of at 2. simpl. lia.
Qed.

(** ** The dispatcher never returns *)

(** C4: [alarm_group_display_creation] never returns, whatever fuel it is
    given and whatever the environment answers; neither does the branch of
    [main] that applies an accepted command, which calls it; so a round of
    [main]'s loop completes only for an empty line or a "Bad command"; and
    in every run of [main] no prompt is printed after an "Inserted" line
    and [main] leaves its critical section at most once: at most one
    command is accepted per run and none is followed by the prompt. *)
Theorem dispatcher_never_returns :
  (forall fuel w r w', alarm_group_display_creation fuel w <> Done r w') /\
  (forall fuel sc w c w', apply_command fuel sc w <> Done c w') /\
  (forall fuel loc w c w',
      main_iteration fuel loc w = Done c w' ->
      w_shared w' = w_shared w /\ w_env w' = w_env w /\
      (new_events w (main_iteration fuel loc w) = [Prompt] \/
       new_events w (main_iteration fuel loc w) = [Prompt; BadCommand])) /\
  (forall fuel loc w,
      let l := new_events w (main fuel loc w) in
      no_prompt_after_insert l /\ (count_of is_unlock l <= 1)%nat).
Proof.
  split; [exact dispatcher_never_done|].
  split; [exact apply_command_never_done|].
  split.
  - intros fuel loc w c w'. rewrite main_iteration_run.
    destruct (w_stdin w) as [|line rest]; [discriminate|].
    destruct (Z.of_nat (String.length line) <=? 1).
    { intros H. injection H as _ <-. repeat split. left.
      apply new_events_app. reflexivity. }
    destruct (w_heap w) as [|blk heap]; [discriminate|].
    cbv zeta. destruct (bad_command _ _).
    { intros H. injection H as _ <-. repeat split. right.
      apply new_events_app. reflexivity. }
    intros H. exfalso. exact (apply_command_never_done _ _ _ _ _ H).
  - intros fuel loc w l. subst l.
    destruct (main_rounds fuel loc w) as (l & Hl & Hr).
    rewrite (new_events_app _ _ _ Hl). apply rounds_then_one_ok. exact Hr.
Qed.

(** ** The dispatcher *)

Lemma wait_for_deadline_step fuel alarm w :
  wait_for_deadline (S fuel) alarm w =
  if current_alarm (w_shared w) =? time alarm
  then
    match w_env w with
    | [] => Starved w
    | r :: env =>
        let w1 := woken w (C_cond_timedwait (time alarm) 0) r env in
        if r_status r =? ETIMEDOUT then Done true w1
        else if r_status r =? 0 then wait_for_deadline fuel alarm w1
             else Aborted (r_status r) "Cond timedwait" w1
    end
  else Done false w.
Proof.
  unfold wait_for_deadline. simpl.
  cbv beta iota delta [bind get_shared pthread_cond_timedwait acquire env_call
                       set_shared ret err_abort put_shared woken].
  destruct (current_alarm (w_shared w) =? time alarm); [|reflexivity].
  destruct (w_env w) as [|r env]; [reflexivity|]. simpl.
  destruct (r_status r =? ETIMEDOUT); [reflexivity|].
  destruct (r_status r =? 0); reflexivity.
Qed.

Lemma wait_for_deadline_events alarm fuel :
  forall w, exists l,
    w_trace (final (wait_for_deadline fuel alarm w)) = w_trace w ++ l /\
    count_of is_delivered l = 0%nat /\
    (forall w', wait_for_deadline fuel alarm w = Done true w' ->
                exists l' r,
                  l = l' ++ [Called (C_cond_timedwait (time alarm) 0) r] /\
                  r_status r = ETIMEDOUT).
Proof.
  induction fuel as [|fuel IH]; intros w.
  - exists []. simpl. rewrite app_nil_r. repeat split. discriminate.
  - rewrite wait_for_deadline_step.
    destruct (current_alarm (w_shared w) =? time alarm).
    2:{ exists []. simpl. rewrite app_nil_r. repeat split. discriminate. }
    destruct (w_env w) as [|r env].
    { exists []. simpl. rewrite app_nil_r. repeat split. discriminate. }
    cbv zeta. destruct (r_status r =? ETIMEDOUT) eqn:Et.
    { exists [Called (C_cond_timedwait (time alarm) 0) r].
      split; [reflexivity|]. split; [reflexivity|].
      intros w' _. exists [], r. split; [reflexivity|].
      apply Z.eqb_eq. exact Et. }
    destruct (r_status r =? 0).
    2:{ exists [Called (C_cond_timedwait (time alarm) 0) r].
        split; [reflexivity|]. split; [reflexivity|]. discriminate. }
    destruct (IH (woken w (C_cond_timedwait (time alarm) 0) r env))
      as (l & Hl & Hc & Hlast).
    exists (Called (C_cond_timedwait (time alarm) 0) r :: l). split.
    { rewrite Hl. unfold woken. simpl. rewrite <- app_assoc. reflexivity. }
    split.
    { change (Called (C_cond_timedwait (time alarm) 0) r :: l)
        with ([Called (C_cond_timedwait (time alarm) 0) r] ++ l).
      rewrite count_of_app, Hc. reflexivity. }
    intros w' Hd. destruct (Hlast w' Hd) as (l' & r' & -> & Hr').
    exists (Called (C_cond_timedwait (time alarm) 0) r :: l'), r'.
    split; [reflexivity|exact Hr'].
Qed.

(** Spurious wakeups (status 0, [current_alarm] untouched) keep the
    dispatcher in its timed wait; the first wakeup that finds
    [current_alarm] changed ends the wait with [expired] still 0. *)
Lemma wait_for_deadline_preempted alarm spurious :
  forall fuel w rp env',
    current_alarm (w_shared w) = time alarm ->
    w_env w = spurious ++ rp :: env' ->
    Forall (fun r => r_status r = 0 /\
                     current_alarm (r_shared r) = time alarm) spurious ->
    r_status rp = 0 ->
    current_alarm (r_shared rp) <> time alarm ->
    (List.length spurious + 1 < fuel)%nat ->
    wait_for_deadline fuel alarm w =
    Done false
         (mkWorld (r_shared rp)
                  (w_trace w ++
                   map (Called (C_cond_timedwait (time alarm) 0))
                       (spurious ++ [rp]))
                  (w_stdin w) (w_heap w) env').
Proof.
  induction spurious as [|r spurious IH];
    intros fuel w rp env' Hcur Henv Hsp Hrp Hpre Hfuel.
  - destruct fuel as [|[|fuel]]; simpl in Hfuel; try lia.
    rewrite wait_for_deadline_step, Hcur, Z.eqb_refl, Henv. simpl.
    rewrite Hrp. simpl.
    rewrite wait_for_deadline_step. unfold woken. simpl.
    apply Z.eqb_neq in Hpre. rewrite Hpre. reflexivity.
  - destruct fuel as [|fuel]; simpl in Hfuel; try lia.
    inversion Hsp as [|? ? [Hr0 Hrc] Hsp']; subst.
    rewrite wait_for_deadline_step, Hcur, Z.eqb_refl, Henv. simpl.
    rewrite Hr0. simpl.
    rewrite (IH fuel _ rp env'); try assumption; try reflexivity; [|lia].
    unfold woken. simpl. rewrite <- app_assoc. reflexivity.
Qed.

Lemma dispatch_iteration_run fuel w :
  dispatch_iteration fuel w =
  bind (wait_for_work fuel)
       (fun _ w1 =>
          match alarm_list (w_shared w1) with
          | [] => Crashed w1
          | alarm :: link =>
              match w_env w1 with
              | [] => Starved (with_alarm_list w1 link)
              | rt :: env =>
                  let w2 := mkWorld (mkShared link (current_alarm (w_shared w1)))
                                    (w_trace w1 ++ [Called C_time rt])
                                    (w_stdin w1) (w_heap w1) env in
                  if time alarm >? r_clock rt
                  then
                    bind (wait_for_deadline fuel alarm)
                         (fun expired : bool =>
                            if expired
                            then emit (Delivered (seconds alarm) (message alarm))
                            else alarm_insert alarm)
                         (with_current w2 (time alarm))
                  else Done tt (log w2 (Delivered (seconds alarm) (message alarm)))
              end
          end)
       (with_current w 0).
Proof.
  unfold dispatch_iteration.
  cbv beta iota delta [bind set_current_alarm get_shared set_alarm_list
                       time_now env_call ret emit free crash with_alarm_list
                       put_shared].
  destruct (wait_for_work fuel (with_current w 0)) as [[] w1| | | | | ];
    try reflexivity.
  destruct (alarm_list (w_shared w1)) as [|alarm link]; [reflexivity|].
  simpl. destruct (w_env w1) as [|rt env]; [reflexivity|].
  destruct (time alarm >? r_clock rt); [|reflexivity].
  match goal with
  | |- context [wait_for_deadline fuel alarm ?w] =>
      destruct (wait_for_deadline fuel alarm w) as [[|] w3| | | | | ]
  end; try reflexivity.
  simpl. destruct (alarm_insert alarm w3) as [[] w4| | | | | ]; reflexivity.
Qed.

Lemma is_delivered_called c r : is_delivered (Called c r) = false.
Proof. reflexivity. Qed.

(** One round of the dispatcher either prints no delivery line, or prints
    exactly one, for the alarm it took from the head of the list, and the
    call just before it is the clock reading or a timed wait that timed
    out. *)
Lemma dispatch_iteration_cases fuel w :
  let o := dispatch_iteration fuel w in
  (exists l, w_trace (final o) = w_trace w ++ l /\
             count_of is_delivered l = 0%nat) \/
  (exists w1 alarm link l c r,
      wait_for_work fuel (with_current w 0) = Done tt w1 /\
      alarm_list (w_shared w1) = alarm :: link /\
      w_trace (final o) =
        w_trace w ++ l ++
        [Called c r; Delivered (seconds alarm) (message alarm)] /\
      count_of is_delivered l = 0%nat /\
      ((c = C_time /\ time alarm <= r_clock r) \/
       (c = C_cond_timedwait (time alarm) 0 /\ r_status r = ETIMEDOUT))).
Proof.
  cbv zeta. rewrite dispatch_iteration_run. unfold bind.
  destruct (wait_for_work_quiet is_delivered
              (fun c r _ => is_delivered_called c r) fuel (with_current w 0))
    as (l1 & Hl1 & Hc1).
  simpl w_trace in Hl1 at 2.
  destruct (wait_for_work fuel (with_current w 0)) as [[] w1| | | | | ];
    simpl in Hl1; try (left; exists l1; split; [exact Hl1|lia]).
  destruct (alarm_list (w_shared w1)) as [|alarm link] eqn:Hlist;
    [left; exists l1; split; [exact Hl1|lia]|].
  destruct (w_env w1) as [|rt env];
    [left; exists l1; split; [exact Hl1|lia]|].
  cbv zeta. destruct (time alarm >? r_clock rt) eqn:Hgt.
  - match goal with
    | |- context [wait_for_deadline fuel alarm ?w2] =>
        destruct (wait_for_deadline_events alarm fuel w2)
          as (l2 & Hl2 & Hc2 & Hlast);
        destruct (wait_for_deadline fuel alarm w2) as [[|] w3| | | | | ]
    end; simpl in Hl2;
      try (left; exists (l1 ++ [Called C_time rt] ++ l2); split;
           [simpl; rewrite Hl2, Hl1, <- !app_assoc; reflexivity
           |rewrite !count_of_app, Hc2; unfold count_of at 2; simpl; lia]).
    + right. destruct (Hlast w3 eq_refl) as (l' & r & -> & Hr).
      exists w1, alarm, link, (l1 ++ [Called C_time rt] ++ l'),
        (C_cond_timedwait (time alarm) 0), r.
      split; [reflexivity|]. split; [exact Hlist|]. split.
      * unfold emit, log. simpl. rewrite Hl2, Hl1, <- !app_assoc. reflexivity.
      * split; [|right; auto].
        rewrite count_of_app in Hc2. rewrite !count_of_app.
        unfold count_of at 2. simpl. lia.
    + left.
      destruct (alarm_insert_quiet is_delivered (fun _ => eq_refl)
                  (fun c r _ => is_delivered_called c r) alarm w3)
        as (l3 & Hl3 & Hc3).
      exists (l1 ++ [Called C_time rt] ++ l2 ++ l3). split.
      * rewrite Hl3, Hl2, Hl1, <- !app_assoc. reflexivity.
      * rewrite !count_of_app, Hc2. unfold count_of at 2. simpl. lia.
  - right. exists w1, alarm, link, l1, C_time, rt.
    split; [reflexivity|]. split; [exact Hlist|]. split.
    + unfold log. simpl. rewrite Hl1, <- !app_assoc. reflexivity.
    + split; [lia|]. left. split; [reflexivity|].
      rewrite Z.gtb_ltb, Z.ltb_ge in Hgt. exact Hgt.
Qed.

Lemma split_at_only f (a pre post : list event) x y :
  count_of f a = 0%nat -> f y = true ->
  a ++ [x] = pre ++ y :: post -> pre = a /\ y = x /\ post = [].
Proof.
  revert pre. induction a as [|e a IH]; intros pre Ha Hy Heq.
  - destruct pre as [|p pre]; simpl in Heq.
    + injection Heq as -> <-. auto.
    + injection Heq as _ Heq. destruct pre; discriminate.
  - change (e :: a) with ([e] ++ a) in Ha. rewrite count_of_app in Ha.
    destruct pre as [|p pre]; simpl in Heq.
    + injection Heq as -> _. unfold count_of at 1 in Ha. simpl in Ha.
      rewrite Hy in Ha. discriminate.
    + injection Heq as -> Heq.
      destruct (IH pre) as (-> & -> & ->); [lia|exact Hy|exact Heq|auto].
Qed.

(** ** Delivery *)

(** C3: a delivery line in a round of the dispatcher is the last thing the
    round prints; it is the line of the alarm the round took from the head
    of the list; and the call that returned just before it is either the
    reading of the clock, which showed a time at or after the alarm's
    deadline, or a [pthread_cond_timedwait] on the absolute time
    [(alarm->time, 0)] that returned [ETIMEDOUT]: a wait that returns 0
    never leads to the delivery.  Where that call keeps to POSIX
    ([ETIMEDOUT] only once the absolute time has passed), the clock at its
    return is at or after the deadline. *)
Theorem delivery_only_at_deadline
        (fuel : nat) (w : world) (pre post : list event)
        (secs : Z) (msg : string) :
  new_events w (dispatch_iteration fuel w) = pre ++ Delivered secs msg :: post ->
  exists w1 alarm link before c r,
    wait_for_work fuel (with_current w 0) = Done tt w1 /\
    alarm_list (w_shared w1) = alarm :: link /\
    secs = seconds alarm /\ msg = message alarm /\
    post = [] /\
    pre = before ++ [Called c r] /\
    count_of is_delivered before = 0%nat /\
    ((c = C_time /\ time alarm <= r_clock r) \/
     (c = C_cond_timedwait (time alarm) 0 /\ r_status r = ETIMEDOUT)) /\
    (respects_abstime (Called c r) -> time alarm <= r_clock r).
Proof.
  intros Hnew.
  destruct (dispatch_iteration_cases fuel w)
    as [(l & Hl & Hc)|(w1 & alarm & link & l & c & r & Hw & Hlist & Hl & Hc & Hcase)].
  - exfalso. rewrite (new_events_app _ _ _ Hl) in Hnew. subst l.
    rewrite count_of_app in Hc.
    change (Delivered secs msg :: post) with ([Delivered secs msg] ++ post) in Hc.
    rewrite count_of_app in Hc. unfold count_of at 2 in Hc. simpl in Hc. lia.
  - rewrite (new_events_app _ _ _ Hl) in Hnew.
    change [Called c r; Delivered (seconds alarm) (message alarm)]
      with ([Called c r] ++ [Delivered (seconds alarm) (message alarm)]) in Hnew.
    rewrite app_assoc in Hnew.
    apply (split_at_only is_delivered) in Hnew;
      [|rewrite count_of_app, Hc; reflexivity|reflexivity].
    destruct Hnew as (-> & Hd & ->). injection Hd as -> ->.
    exists w1, alarm, link, l, c, r. repeat split; try assumption.
    destruct Hcase as [(-> & Hle)|(-> & Het)]; [intros _; exact Hle|].
    simpl. intros Hposix. exact (Hposix Het).
Qed.

Lemma delivery_only_at_deadline_witness :
  let alarm := mkAlarm 5 1 7 "hello" 105 in
  let waiting := mkShared [] 105 in
  let w := mkWorld (mkShared [alarm] 105) [] [] []
                   [ok 100 waiting; ok 103 waiting;
                    mkReply ETIMEDOUT 105 waiting] in
  exists w1 alarm' link before c r,
    wait_for_work 5 (with_current w 0) = Done tt w1 /\
    alarm_list (w_shared w1) = alarm' :: link /\
    5 = seconds alarm' /\ "hello" = message alarm' /\
    @nil event = [] /\
    [Called C_time (ok 100 waiting);
     Called (C_cond_timedwait 105 0) (ok 103 waiting);
     Called (C_cond_timedwait 105 0) (mkReply ETIMEDOUT 105 waiting)] =
      before ++ [Called c r] /\
    count_of is_delivered before = 0%nat /\
    ((c = C_time /\ time alarm' <= r_clock r) \/
     (c = C_cond_timedwait (time alarm') 0 /\ r_status r = ETIMEDOUT)) /\
    (respects_abstime (Called c r) -> time alarm' <= r_clock r).
Proof.
  intros alarm waiting w.
  apply (delivery_only_at_deadline 5 w _ [] 5 "hello").
  reflexivity.
Defined.

(** ** Preemption *)

Lemma count_of_calls f c l :
  (forall r, f (Called c r) = false) -> count_of f (map (Called c) l) = 0%nat.
Proof.
  intros Hf. apply count_of_zero. apply Forall_forall. intros e He.
  apply in_map_iff in He. destruct He as (r & <- & _). apply Hf.
Qed.

(** C1: take a round of the dispatcher that finds [alarm] at the head of
    the list with its deadline still ahead and commits to it.  If the
    timed wait, after any number of spurious wakeups, returns 0 with
    [current_alarm] no longer equal to the deadline, then the round ends
    without a delivery line and with the alarm linked back into the list
    that the wakeup found: the dispatcher starts its next round with the
    alarm in the store. *)
Theorem preempted_alarm_is_requeued
        (fuel : nat) (w w1 : world) (alarm : alarm_t) (link : list alarm_t)
        (rt rp rs : reply) (spurious env' : list reply) :
  wait_for_work fuel (with_current w 0) = Done tt w1 ->
  alarm_list (w_shared w1) = alarm :: link ->
  w_env w1 = rt :: spurious ++ rp :: rs :: env' ->
  time alarm > r_clock rt ->
  Forall (fun r => r_status r = 0 /\ current_alarm (r_shared r) = time alarm)
         spurious ->
  r_status rp = 0 ->
  current_alarm (r_shared rp) <> time alarm ->
  r_status rs = 0 ->
  (List.length spurious + 1 < fuel)%nat ->
  exists w',
    dispatch_iteration fuel w = Done tt w' /\
    alarm_list (w_shared w') = insert_in_order alarm (alarm_list (r_shared rp)) /\
    In alarm (alarm_list (w_shared w')) /\
    count_of is_delivered (new_events w (dispatch_iteration fuel w)) = 0%nat.
Proof.
  intros Hwait Hlist Henv Hgt Hsp Hrp Hpre Hrs Hfuel.
  assert (Hrun : exists w' l,
             dispatch_iteration fuel w = Done tt w' /\
             alarm_list (w_shared w') =
               insert_in_order alarm (alarm_list (r_shared rp)) /\
             w_trace w' = w_trace w ++ l /\
             count_of is_delivered l = 0%nat).
  { destruct (wait_for_work_quiet is_delivered
                (fun c r _ => is_delivered_called c r) fuel (with_current w 0))
      as (l1 & Hl1 & Hc1).
    rewrite Hwait in Hl1. simpl in Hl1.
    rewrite dispatch_iteration_run. unfold bind at 1.
    rewrite Hwait, Hlist, Henv. cbv zeta.
    assert (Hgtb : (time alarm >? r_clock rt) = true)
      by (rewrite Z.gtb_ltb; apply Z.ltb_lt; lia).
    rewrite Hgtb. unfold bind.
    rewrite (wait_for_deadline_preempted alarm spurious fuel _ rp (rs :: env'));
      try assumption; try reflexivity.
    rewrite alarm_insert_run. cbv zeta. simpl.
    assert (Hcalls : count_of is_delivered
                       (map (Called (C_cond_timedwait (time alarm) 0))
                            (spurious ++ [rp])) = 0%nat)
      by (apply count_of_calls; reflexivity).
    destruct ((current_alarm (r_shared rp) =? 0)
              || (time alarm <? current_alarm (r_shared rp))).
    - rewrite Hrs. simpl. eexists. eexists. split; [reflexivity|]. simpl.
      split; [reflexivity|]. split.
      + rewrite Hl1, <- !app_assoc. reflexivity.
      + rewrite !count_of_app, Hcalls. unfold count_of at 2 3 4. simpl. lia.
    - eexists. eexists. split; [reflexivity|]. simpl.
      split; [reflexivity|]. split.
      + rewrite Hl1, <- !app_assoc. reflexivity.
      + rewrite !count_of_app, Hcalls. unfold count_of at 2 3. simpl. lia. }
  destruct Hrun as (w' & l & Hrun & Hlist' & Htr & Hc).
  exists w'. rewrite Hrun. split; [reflexivity|]. split; [exact Hlist'|].
  split.
  - rewrite Hlist'.
    apply (Permutation_in alarm
             (Permutation_sym (insert_in_order_perm alarm _))).
    left. reflexivity.
  - rewrite (new_events_app w (Done tt w') l Htr). exact Hc.
Qed.

Lemma preempted_alarm_is_requeued_witness :
  let alarm := mkAlarm 10 1 1 "A" 110 in
  let earlier := mkAlarm 1 2 1 "B" 103 in
  let w := mkWorld (mkShared [alarm] 110) [] [] []
                   [ok 100 (mkShared [] 110);
                    ok 101 (mkShared [] 110);
                    ok 102 (mkShared [earlier] 103);
                    ok 102 (mkShared [] 0)] in
  exists w',
    dispatch_iteration 4 w = Done tt w' /\
    alarm_list (w_shared w') =
      insert_in_order alarm (alarm_list (mkShared [earlier] 103)) /\
    In alarm (alarm_list (w_shared w')) /\
    count_of is_delivered (new_events w (dispatch_iteration 4 w)) = 0%nat.
Proof.
  intros alarm earlier w.
  apply (preempted_alarm_is_requeued 4 w (with_current w 0) alarm []
           (ok 100 (mkShared [] 110)) (ok 102 (mkShared [earlier] 103))
           (ok 102 (mkShared [] 0)) [ok 101 (mkShared [] 110)] []).
  - reflexivity.
  - reflexivity.
  - reflexivity.
  - simpl. lia.
  - repeat constructor.
  - reflexivity.
  - simpl. discriminate.
  - reflexivity.
  - simpl. lia.
Defined.

(** ** Applying a command *)

Lemma input_validator_done ka kg ua w flag w' :
  input_validator ka kg ua w = Done flag w' ->
  w' = w /\ 1 <= flag <= 6 /\
  forall w0, input_validator ka kg ua w0 = Done flag w0.
Proof.
  unfold input_validator.
  repeat match goal with
         | |- context [if ?b then _ else _] => destruct b
         end;
    unfold ret, err_abort; intros H; try discriminate;
    injection H as <- <-; repeat split; lia.
Qed.

Lemma input_validator_cases ka kg ua w :
  (exists flag, input_validator ka kg ua w = Done flag w) \/
  input_validator ka kg ua w = Aborted 69 "command not found" w.
Proof.
  unfold input_validator.
  repeat match goal with
         | |- context [if ?b then _ else _] => destruct b
         end; unfold ret, err_abort; eauto.
Qed.

Lemma critical_section_run alarm w rl rt env :
  w_env w = rl :: rt :: env -> r_status rl = 0 ->
  critical_section alarm w =
  bind (alarm_insert (with_time alarm (r_clock rt + seconds alarm)))
       (fun _ =>
          status <- pthread_mutex_unlock ;;
          if status =? 0 then ret tt else err_abort status "Unlock mutex")
       (locked w rl rt env).
Proof.
  intros Henv Hrl. unfold critical_section.
  unfold bind at 1. unfold pthread_mutex_lock, acquire.
  unfold bind at 1 2. unfold env_call at 1. rewrite Henv.
  unfold set_shared at 1. unfold ret at 1. rewrite Hrl. simpl (0 =? 0).
  unfold bind at 1. unfold ret at 1.
  unfold bind at 1. unfold time_now, bind at 1, env_call at 1. simpl w_env.
  unfold ret at 1. unfold put_shared, locked. simpl.
  rewrite <- app_assoc. reflexivity.
Qed.

Lemma apply_command_accepted fuel sc w flag w' rl rt env :
  input_validator (keyword_action (sc_locals sc))
                  (keyword_group (sc_locals sc)) (user_arg sc) w
    = Done flag w' ->
  w_env w = rl :: rt :: env -> r_status rl = 0 ->
  apply_command fuel sc w =
  bind (alarm_insert (with_time (sc_alarm sc)
                                (r_clock rt + seconds (sc_alarm sc))))
       (fun _ => after_insert fuel sc)
       (locked w rl rt env).
Proof.
  intros Hv Henv Hrl. unfold apply_command. unfold bind at 1.
  destruct (input_validator_done _ _ _ _ _ _ Hv) as (-> & _ & _).
  rewrite Hv. unfold bind at 1.
  rewrite (critical_section_run _ _ _ _ _ Henv Hrl).
  unfold after_insert, bind.
  destruct (alarm_insert _ _) as [[] w3| | | | | ]; try reflexivity.
  destruct (pthread_mutex_unlock w3) as [status w4| | | | | ]; reflexivity.
Qed.

(** Events that neither [alarm_insert], nor the dispatcher, nor any call
    to the environment produces. *)
Section CommandEvents.

Variable f : event -> bool.
Hypothesis f_inserted : forall a, f (Inserted a) = false.
Hypothesis f_delivered : forall s m, f (Delivered s m) = false.
Hypothesis f_called : forall c r, f (Called c r) = false.

Lemma after_insert_quiet fuel sc : emits_at_most f 0 (after_insert fuel sc).
Proof.
  unfold after_insert.
  apply emits_bind0;
    [apply emits_bind0;
     [apply emits_env_call; intros ?; apply f_called
     |intros ?; apply emits_ret]
    |intros status].
  apply emits_bind0;
    [destruct (status =? 0); [apply emits_ret|apply emits_silent; reflexivity]
    |intros _].
  apply emits_bind0;
    [apply dispatcher_quiet; intros; auto|intros _].
  apply emits_bind0; [|intros _; apply emits_ret].
  apply emits_bind0; [|intros r; apply emits_ret].
  apply emits_env_call. intros r. apply f_called.
Qed.

Lemma apply_command_quiet fuel sc : emits_at_most f 0 (apply_command fuel sc).
Proof.
  unfold apply_command.
  apply emits_bind0; [apply emits_silent, input_validator_silent|intros _].
  apply emits_bind0.
  { unfold critical_section.
    repeat first
      [ apply emits_ret
      | apply alarm_insert_quiet; intros; auto
      | apply emits_bind0; [|intros ?]
      | apply emits_env_call; intros ?; apply f_called
      | apply emits_silent; intros ?; reflexivity
      | match goal with
        | |- emits_at_most _ _ (if ?b then _ else _) => destruct b
        end ]. }
  intros _.
  apply emits_bind0;
    [apply dispatcher_quiet; intros; auto|intros _].
  apply emits_bind0; [|intros _; apply emits_ret].
  apply emits_bind0; [|intros r; apply emits_ret].
  apply emits_env_call. intros r. apply f_called.
Qed.

End CommandEvents.

(** The "Inserted" line of an accepted command stays in the trace,
    whatever the dispatcher does afterwards. *)
Lemma inserted_trace fuel sc alarm w :
  exists l,
    w_trace (final (bind (alarm_insert alarm) (fun _ => after_insert fuel sc) w))
    = w_trace w ++ Inserted alarm :: l.
Proof.
  destruct (alarm_insert_trace alarm w) as (l & Hl).
  unfold bind.
  destruct (alarm_insert alarm w) as [[] w3| | | | | ]; simpl in Hl;
    try (exists l; exact Hl).
  destruct (after_insert_quiet is_prompt (fun _ => eq_refl)
              (fun _ _ => eq_refl) (fun _ _ => eq_refl) fuel sc w3)
    as (l2 & Hl2 & _).
  exists (l ++ l2). rewrite Hl2, Hl, <- app_assoc. reflexivity.
Qed.

(** A line of more than one character for which a block is at hand goes
    one of two ways, and line 238 alone decides which. *)
Lemma main_iteration_line fuel loc w line rest blk heap :
  w_stdin w = line :: rest ->
  1 < Z.of_nat (String.length line) ->
  w_heap w = blk :: heap ->
  let sc := sscanf_line line loc blk in
  let w1 := after_read w rest heap in
  main_iteration fuel loc w =
  if bad_command (user_arg sc) (sc_alarm sc)
  then Done (Continue (sc_locals sc)) (log w1 BadCommand)
  else apply_command fuel sc w1.
Proof.
  intros Hin Hlen Hheap sc w1. rewrite main_iteration_run, Hin, Hheap.
  assert (Hle : (Z.of_nat (String.length line) <=? 1) = false)
    by (apply Z.leb_gt; exact Hlen).
  rewrite Hle. cbv zeta. fold sc. fold w1.
  destruct (bad_command (user_arg sc) (sc_alarm sc)); [|reflexivity].
  unfold w1, after_read, log. simpl. rewrite <- app_assoc. reflexivity.
Qed.

(** ** Every recognized command inserts *)

Lemma critical_section_list alarm w rl rt env :
  w_env w = rl :: rt :: env -> r_status rl = 0 ->
  alarm_list (w_shared (final (critical_section alarm w))) =
  insert_in_order (with_time alarm (r_clock rt + seconds alarm))
                  (alarm_list (r_shared rl)).
Proof.
  intros Henv Hrl. rewrite (critical_section_run alarm w rl rt env Henv Hrl).
  pose proof (alarm_insert_list
                (with_time alarm (r_clock rt + seconds alarm))
                (locked w rl rt env)) as Hl.
  simpl alarm_list in Hl at 2. unfold bind.
  destruct (alarm_insert _ _) as [[] w3| | | | | ]; try exact Hl.
  simpl in Hl. unfold pthread_mutex_unlock, status_of, bind, env_call, ret.
  destruct (w_env w3) as [|ru env3]; [exact Hl|].
  destruct (r_status ru =? 0); exact Hl.
Qed.

(** C10, as the code has it: take a line that [input_validator]
    recognizes, whichever of the six flags it gives.  The test of line
    238 comes first, on the id and the group the alarm holds after
    [sscanf] (for the short commands: what the block held).  If the test
    turns the line down, [main] prints "Bad command", [input_validator]
    is not reached and nothing is inserted.  If the line passes, [main]
    takes the mutex, stamps the freshly allocated alarm with
    [time (NULL) + seconds] and calls [alarm_insert] on it; the flag does
    not occur in what [main] does; after the critical section the new
    alarm is in the list together with every alarm that was there, and
    its "Inserted" line is printed.  So a Cancel_Alarm, Suspend_Alarm,
    Reactivate_Alarm or View_Alarms line that passes line 238 ends in an
    insertion. *)
Theorem recognized_command_inserts_unless_rejected
        (fuel : nat) (loc : locals) (w : world) (line : string)
        (rest : list string) (blk : alarm_t) (heap : list alarm_t)
        (flag : Z) :
  w_stdin w = line :: rest ->
  1 < Z.of_nat (String.length line) ->
  w_heap w = blk :: heap ->
  let sc := sscanf_line line loc blk in
  let w1 := after_read w rest heap in
  let o := main_iteration fuel loc w in
  input_validator (keyword_action (sc_locals sc))
                  (keyword_group (sc_locals sc)) (user_arg sc) w1
    = Done flag w1 ->
  1 <= flag <= 6 /\
  (bad_command (user_arg sc) (sc_alarm sc) = true ->
   o = Done (Continue (sc_locals sc)) (log w1 BadCommand) /\
   w_shared (final o) = w_shared w /\
   count_of is_inserted (new_events w o) = 0%nat) /\
  (bad_command (user_arg sc) (sc_alarm sc) = false ->
   forall rl rt env,
     w_env w = rl :: rt :: env ->
     r_status rl = 0 ->
     let inserted :=
       with_time (sc_alarm sc) (r_clock rt + seconds (sc_alarm sc)) in
     let after :=
       alarm_list (w_shared (final (critical_section (sc_alarm sc) w1))) in
     o = bind (alarm_insert inserted) (fun _ => after_insert fuel sc)
              (locked w1 rl rt env) /\
     In inserted after /\
     Permutation after (inserted :: alarm_list (r_shared rl)) /\
     In (Inserted inserted) (new_events w o)).
Proof.
  intros Hin Hlen Hheap sc w1 o Hv. subst o.
  split; [exact (proj1 (proj2 (input_validator_done _ _ _ _ _ _ Hv)))|].
  rewrite (main_iteration_line fuel loc w line rest blk heap Hin Hlen Hheap).
  fold sc. fold w1. split.
  - intros Hbad. rewrite Hbad. split; [reflexivity|]. split; [reflexivity|].
    erewrite new_events_app.
    2:{ unfold log, w1, after_read. simpl. rewrite <- app_assoc. reflexivity. }
    reflexivity.
  - intros Hok rl rt env Henv Hrl inserted after. rewrite Hok.
    assert (Henv1 : w_env w1 = rl :: rt :: env) by exact Henv.
    assert (Hafter : after =
                     insert_in_order inserted (alarm_list (r_shared rl)))
      by (apply (critical_section_list (sc_alarm sc) w1 rl rt env Henv1 Hrl)).
    assert (Hperm : Permutation after (inserted :: alarm_list (r_shared rl)))
      by (rewrite Hafter; apply insert_in_order_perm).
    assert (Hrun : apply_command fuel sc w1 =
                   bind (alarm_insert inserted) (fun _ => after_insert fuel sc)
                        (locked w1 rl rt env))
      by (apply (apply_command_accepted fuel sc w1 flag w1 rl rt env
                   Hv Henv1 Hrl)).
    split; [exact Hrun|]. split.
    { apply (Permutation_in inserted (Permutation_sym Hperm)).
      left. reflexivity. }
    split; [exact Hperm|].
    rewrite Hrun.
    destruct (inserted_trace fuel sc inserted (locked w1 rl rt env))
      as (l & Hl).
    erewrite new_events_app.
    2:{ rewrite Hl. unfold locked, w1, after_read. simpl.
        rewrite <- !app_assoc. reflexivity. }
    apply in_or_app. right. simpl. auto.
Qed.

(** A Cancel_Alarm line, read into a block whose [id_group] happens to
    hold 5, is applied as an insertion: the alarm with id 1 that was
    pending is still in the list, next to the new one. *)
Lemma recognized_command_inserts_unless_rejected_witness :
  let pending := mkAlarm 5 1 7 "hello" 105 in
  let blk := mkAlarm 30 0 5 "" 0 in
  let line := line_of "Cancel_Alarm(1)" in
  let rl := ok 100 (mkShared [pending] 105) in
  let w := mkWorld idle [] [line] [blk] [rl; ok 100 idle] in
  let w1 := after_read w [] [] in
  let sc := sscanf_line line no_keywords blk in
  let inserted := mkAlarm 30 1 5 "" 130 in
  let after :=
    alarm_list (w_shared (final (critical_section (sc_alarm sc) w1))) in
  main_iteration 3 no_keywords w =
    bind (alarm_insert inserted) (fun _ => after_insert 3 sc)
         (locked w1 rl (ok 100 idle) []) /\
  In inserted after /\
  Permutation after [inserted; pending] /\
  In (Inserted inserted) (new_events w (main_iteration 3 no_keywords w)).
Proof.
  intros pending blk line rl w w1 sc inserted after.
  destruct (recognized_command_inserts_unless_rejected 3 no_keywords w line
              [] blk [] 1 eq_refl eq_refl eq_refl eq_refl)
    as (_ & _ & Hins).
  exact (Hins eq_refl rl (ok 100 idle) [] eq_refl eq_refl).
Defined.

(** C10 fails as stated: the line Cancel_Alarm(1) is one that
    [input_validator] recognizes (keyword Cancel_Alarm, two items), but
    read into a zero-filled block it does not pass line 238: [main]
    prints "Bad command" and inserts nothing. *)
Lemma recognized_cancel_line_gets_bad_command :
  let pending := mkAlarm 5 1 7 "hello" 105 in
  let line := line_of "Cancel_Alarm(1)" in
  let w := mkWorld (mkShared [pending] 105) [] [line] [zeroed]
                   [ok 100 (mkShared [pending] 105); ok 100 idle] in
  let sc := sscanf_line line no_keywords zeroed in
  input_validator (keyword_action (sc_locals sc))
                  (keyword_group (sc_locals sc)) (user_arg sc)
                  (after_read w [] []) = Done 1 (after_read w [] []) /\
  main_iteration 3 no_keywords w =
    Done (Continue (sc_locals sc)) (log (after_read w [] []) BadCommand) /\
  new_events w (main_iteration 3 no_keywords w) = [Prompt; BadCommand] /\
  count_of is_inserted (new_events w (main_iteration 3 no_keywords w)) = 0%nat /\
  alarm_list (w_shared (final (main_iteration 3 no_keywords w))) = [pending].
Proof.
  intros pending line w sc. repeat split.
Qed.

(** ** What [sscanf] stores *)

Lemma to_int_range v : int_range (to_int v).
Proof.
  unfold int_range, to_int.
  pose proof (Z.mod_pos_bound (Z.max (- 2 ^ 63) (Z.min v (2 ^ 63 - 1)) + 2 ^ 31)
                              (2 ^ 32) eq_refl).
  lia.
Qed.

Lemma scan_int_range s v r : scan_int s = Some (v, r) -> int_range v.
Proof.
  unfold scan_int.
  destruct (match skip_spaces s with
            | String "-" s' => (true, s')
            | String "+" s' => (false, s')
            | _ => (false, skip_spaces s)
            end) as [neg s1].
  destruct s1 as [|c s1']; [discriminate|].
  destruct (digit_of c); [|discriminate].
  destruct (scan_digits 0 (String c s1')) as [v0 r0].
  intros H. injection H as <- _. apply to_int_range.
Qed.

(** When all six items are matched, the three numbers are [int]s. *)
Lemma sscanf_line_complete line loc blk :
  user_arg (sscanf_line line loc blk) = 6 ->
  int_range (seconds (sc_alarm (sscanf_line line loc blk))) /\
  int_range (id_alarm (sc_alarm (sscanf_line line loc blk))) /\
  int_range (id_group (sc_alarm (sscanf_line line loc blk))).
Proof.
  unfold sscanf_line.
  repeat match goal with
         | |- context [match ?x with _ => _ end] =>
             match x with
             | scan_int _ => destruct x as [[? ?]|] eqn:?
             | literal _ _ => destruct x as [?|] eqn:?
             | scanset _ _ _ => destruct x as [[|? ?] ?] eqn:?
             | _ => destruct x eqn:?
             end
         end; simpl; intros H; try discriminate.
  split; [|split]; eapply scan_int_range; eassumption.
Qed.

Lemma input_validator_start ka kg ua w w' :
  input_validator ka kg ua w = Done 3 w' ->
  ka = "Start_Alarm" /\ kg = "Group" /\ ua = 6.
Proof.
  unfold input_validator.
  destruct ((ka =? "Cancel_Alarm")%string && (ua =? 2)); [discriminate|].
  destruct ((ka =? "View_Alarms")%string && (ua =? 1)); [discriminate|].
  destruct ((ka =? "Start_Alarm")%string && (kg =? "Group")%string && (ua =? 6))
    eqn:E.
  - intros _. apply andb_true_iff in E. destruct E as (E & Eu).
    apply andb_true_iff in E. destruct E as (Ea & Eg).
    apply String.eqb_eq in Ea, Eg. apply Z.eqb_eq in Eu. auto.
  - repeat match goal with
           | |- context [if ?b then _ else _] => destruct b
           end; discriminate.
Qed.

(** ** The deadline of a started alarm *)

(** C8: for an accepted Start_Alarm command (the line passes line 238 and
    [input_validator] returns 3), with the pthread calls succeeding, the
    critical section of [main] completes, and the alarm it has put into
    the list carries [time = now + seconds], where [now] is the clock
    reading taken inside the critical section and [seconds] is the value
    [sscanf] stored, which the alarm keeps.  That value is an [int], and
    for a clock between 0 and 2^62 the sum is a [time_t]. *)
Theorem start_deadline_is_now_plus_seconds
        (fuel : nat) (loc : locals) (w : world) (line : string)
        (rest : list string) (blk : alarm_t) (heap : list alarm_t)
        (rl rt r1 r2 : reply) (env : list reply) :
  w_stdin w = line :: rest ->
  1 < Z.of_nat (String.length line) ->
  w_heap w = blk :: heap ->
  let sc := sscanf_line line loc blk in
  let w1 := after_read w rest heap in
  bad_command (user_arg sc) (sc_alarm sc) = false ->
  input_validator (keyword_action (sc_locals sc))
                  (keyword_group (sc_locals sc)) (user_arg sc) w1
    = Done 3 w1 ->
  w_env w = rl :: rt :: r1 :: r2 :: env ->
  r_status rl = 0 -> r_status r1 = 0 -> r_status r2 = 0 ->
  let started :=
    with_time (sc_alarm sc) (r_clock rt + seconds (sc_alarm sc)) in
  exists w',
    critical_section (sc_alarm sc) w1 = Done tt w' /\
    main_iteration fuel loc w =
      (alarm_group_display_creation fuel ;; sem_wait ;;
       ret (Continue (sc_locals sc))) w' /\
    In started (alarm_list (w_shared w')) /\
    In (Inserted started) (w_trace w') /\
    time started = r_clock rt + seconds (sc_alarm sc) /\
    seconds started = seconds (sc_alarm sc) /\
    int_range (seconds started) /\
    (0 <= r_clock rt < 2 ^ 62 -> time_t_range (time started)).
Proof.
  intros Hin Hlen Hheap sc w1 Hok Hv Henv Hrl Hr1 Hr2 started.
  assert (Hint : int_range (seconds (sc_alarm sc))).
  { destruct (input_validator_start _ _ _ _ _ Hv) as (_ & _ & Hsix).
    exact (proj1 (sscanf_line_complete line loc blk Hsix)). }
  assert (Henv1 : w_env w1 = rl :: rt :: r1 :: r2 :: env) by exact Henv.
  assert (Hcrit : exists w',
             critical_section (sc_alarm sc) w1 = Done tt w' /\
             alarm_list (w_shared w') =
               insert_in_order started (alarm_list (r_shared rl)) /\
             In (Inserted started) (w_trace w')).
  { rewrite (critical_section_run _ _ _ _ _ Henv1 Hrl). fold started.
    unfold bind at 1. rewrite alarm_insert_run. cbv zeta.
    unfold pthread_mutex_unlock, status_of, bind, env_call, ret. simpl.
    destruct (_ || _); simpl.
    - rewrite Hr1. simpl. rewrite Hr2. simpl.
      eexists. split; [reflexivity|]. split; [reflexivity|]. simpl.
      rewrite !in_app_iff. simpl. tauto.
    - rewrite Hr1. simpl.
      eexists. split; [reflexivity|]. split; [reflexivity|]. simpl.
      rewrite !in_app_iff. simpl. tauto. }
  destruct Hcrit as (w' & Hcrit & Hlist & Htrace).
  exists w'. split; [exact Hcrit|]. split.
  - rewrite (main_iteration_line fuel loc w line rest blk heap Hin Hlen Hheap).
    fold sc. fold w1. rewrite Hok. unfold apply_command.
    unfold bind at 1. rewrite Hv. unfold bind at 1. rewrite Hcrit. reflexivity.
  - split.
    + rewrite Hlist.
      apply (Permutation_in started
               (Permutation_sym (insert_in_order_perm started _))).
      left. reflexivity.
    + split; [exact Htrace|]. split; [reflexivity|]. split; [reflexivity|].
      split; [exact Hint|].
      unfold time_t_range, int_range in *. simpl. lia.
Qed.

Lemma start_deadline_is_now_plus_seconds_witness :
  let w := mkWorld idle [] [line_of "Start_Alarm(1): Group(7) 5 hello"]
                   [zeroed]
                   [ok 100 idle; ok 100 idle; ok 100 idle; ok 100 idle] in
  let started := mkAlarm 5 1 7 "hello" 105 in
  exists w',
    critical_section (mkAlarm 5 1 7 "hello" 0) (after_read w [] [])
      = Done tt w' /\
    main_iteration 2 no_keywords w =
      (alarm_group_display_creation 2 ;; sem_wait ;;
       ret (Continue (mkLocals "Start_Alarm" "Group"))) w' /\
    In started (alarm_list (w_shared w')) /\
    In (Inserted started) (w_trace w') /\
    time started = 100 + 5 /\
    seconds started = 5 /\
    int_range (seconds started) /\
    (0 <= 100 < 2 ^ 62 -> time_t_range (time started)).
Proof.
  intros w started.
  apply (start_deadline_is_now_plus_seconds 2 no_keywords w
           (line_of "Start_Alarm(1): Group(7) 5 hello") [] zeroed []
           (ok 100 idle) (ok 100 idle) (ok 100 idle) (ok 100 idle) []);
    reflexivity.
Defined.

(** ** Lines that are not commands *)

(** C7, as the code has it: a line of more than one character that
    [input_validator] does not recognize is answered with "Bad command",
    and the loop goes on, exactly when the id or the group in the alarm
    after [sscanf] is below 1; otherwise [input_validator] is reached and
    ends the process through [err_abort (69, "command not found")]. *)
Theorem unrecognized_line_rejected_or_fatal
        (fuel : nat) (loc : locals) (w : world) (line : string)
        (rest : list string) (blk : alarm_t) (heap : list alarm_t) :
  w_stdin w = line :: rest ->
  1 < Z.of_nat (String.length line) ->
  w_heap w = blk :: heap ->
  let sc := sscanf_line line loc blk in
  let w1 := after_read w rest heap in
  (forall flag w', input_validator (keyword_action (sc_locals sc))
                                   (keyword_group (sc_locals sc))
                                   (user_arg sc) w1 <> Done flag w') ->
  ((id_alarm (sc_alarm sc) < 1 \/ id_group (sc_alarm sc) < 1) /\
   main_iteration fuel loc w =
     Done (Continue (sc_locals sc)) (log w1 BadCommand)) \/
  (1 <= id_alarm (sc_alarm sc) /\ 1 <= id_group (sc_alarm sc) /\
   main_iteration fuel loc w = Aborted 69 "command not found" w1).
Proof.
  intros Hin Hlen Hheap sc w1 Hno.
  rewrite (main_iteration_line fuel loc w line rest blk heap Hin Hlen Hheap).
  fold sc. fold w1.
  destruct (bad_command (user_arg sc) (sc_alarm sc)) eqn:Hbad.
  - left. split; [|reflexivity].
    unfold bad_command in Hbad.
    destruct (user_arg sc =? -1); simpl in Hbad;
      apply orb_true_iff in Hbad; rewrite !Z.ltb_lt in Hbad; exact Hbad.
  - right. unfold bad_command in Hbad.
    apply orb_false_iff in Hbad. destruct Hbad as (Hbad & Hg).
    apply orb_false_iff in Hbad. destruct Hbad as (_ & Hi).
    rewrite Z.ltb_ge in Hi, Hg. split; [exact Hi|]. split; [exact Hg|].
    unfold apply_command, bind.
    destruct (input_validator_cases (keyword_action (sc_locals sc))
                (keyword_group (sc_locals sc)) (user_arg sc) w1)
      as [(flag & Hv)|Hv].
    + exfalso. exact (Hno _ _ Hv).
    + rewrite Hv. reflexivity.
Qed.

Lemma unrecognized_line_rejected_or_fatal_witness :
  let w := mkWorld idle [] [line_of "hello"] [zeroed] [] in
  let sc := sscanf_line (line_of "hello") no_keywords zeroed in
  let w1 := after_read w [] [] in
  ((id_alarm (sc_alarm sc) < 1 \/ id_group (sc_alarm sc) < 1) /\
   main_iteration 1 no_keywords w =
     Done (Continue (sc_locals sc)) (log w1 BadCommand)) \/
  (1 <= id_alarm (sc_alarm sc) /\ 1 <= id_group (sc_alarm sc) /\
   main_iteration 1 no_keywords w = Aborted 69 "command not found" w1).
Proof.
  intros w sc w1.
  apply (unrecognized_line_rejected_or_fatal 1 no_keywords w
           (line_of "hello") [] zeroed []);
    try reflexivity.
  intros flag w'. discriminate.
Defined.

(** C7 fails as stated: a line that is none of the six commands but
    carries a positive id and group ends the process, and "Bad command"
    is not printed. *)
Lemma unknown_command_aborts :
  let w := mkWorld idle [] [line_of "Foo(1): Bar(2) 3 x"; line_of "next"]
                   [zeroed; zeroed] [] in
  main_iteration 5 no_keywords w =
    Aborted 69 "command not found" (after_read w [line_of "next"] [zeroed]) /\
  count_of is_bad_command (new_events w (main_iteration 5 no_keywords w)) = 0%nat /\
  forall c w', main_iteration 5 no_keywords w <> Done c w'.
Proof.
  intros w. split; [reflexivity|]. split; [reflexivity|]. discriminate.
Qed.

(** ** Parse errors *)

(** C9, as the code has it: the test of line 238 looks at the id and the
    group only.  A line whose alarm holds an id or a group below 1 after
    [sscanf] is answered with "Bad command" and nothing is inserted.  A
    line whose id and group are positive is never answered with "Bad
    command", however few items [sscanf] matched: it is handed to
    [input_validator], and when the keyword and the count fit none of the
    six commands the process is aborted with nothing inserted. *)
Theorem parse_shortfall_is_not_checked
        (fuel : nat) (loc : locals) (w : world) (line : string)
        (rest : list string) (blk : alarm_t) (heap : list alarm_t) :
  w_stdin w = line :: rest ->
  1 < Z.of_nat (String.length line) ->
  w_heap w = blk :: heap ->
  let sc := sscanf_line line loc blk in
  let w1 := after_read w rest heap in
  let o := main_iteration fuel loc w in
  ((id_alarm (sc_alarm sc) < 1 \/ id_group (sc_alarm sc) < 1) ->
   o = Done (Continue (sc_locals sc)) (log w1 BadCommand) /\
   w_shared (final o) = w_shared w /\
   count_of is_inserted (new_events w o) = 0%nat) /\
  (0 <= user_arg sc ->
   1 <= id_alarm (sc_alarm sc) -> 1 <= id_group (sc_alarm sc) ->
   o = apply_command fuel sc w1 /\
   count_of is_bad_command (new_events w o) = 0%nat /\
   ((forall flag w', input_validator (keyword_action (sc_locals sc))
                                     (keyword_group (sc_locals sc))
                                     (user_arg sc) w1 <> Done flag w') ->
    o = Aborted 69 "command not found" w1 /\
    w_shared (final o) = w_shared w /\
    count_of is_inserted (new_events w o) = 0%nat)).
Proof.
  intros Hin Hlen Hheap sc w1 o. subst o.
  rewrite (main_iteration_line fuel loc w line rest blk heap Hin Hlen Hheap).
  fold sc. fold w1. split.
  - intros Hlow.
    assert (Hbad : bad_command (user_arg sc) (sc_alarm sc) = true).
    { unfold bad_command. apply orb_true_iff.
      destruct Hlow as [Hi|Hg].
      - left. apply orb_true_iff. right. apply Z.ltb_lt. exact Hi.
      - right. apply Z.ltb_lt. exact Hg. }
    rewrite Hbad. split; [reflexivity|]. split; [reflexivity|].
    erewrite new_events_app.
    2:{ unfold log, w1, after_read. simpl. rewrite <- app_assoc. reflexivity. }
    reflexivity.
  - intros _ Hi Hg.
    assert (Hbad : bad_command (user_arg sc) (sc_alarm sc) = false).
    { unfold bad_command. apply orb_false_iff. split.
      - apply orb_false_iff. split.
        + destruct (user_arg sc =? -1); reflexivity.
        + apply Z.ltb_ge. exact Hi.
      - apply Z.ltb_ge. exact Hg. }
    rewrite Hbad. split; [reflexivity|]. split.
    + destruct (apply_command_quiet is_bad_command (fun _ => eq_refl)
                  (fun _ _ => eq_refl) (fun _ _ => eq_refl) fuel sc w1)
        as (l & Hl & Hc).
      erewrite new_events_app.
      2:{ rewrite Hl. unfold w1, after_read. simpl.
          rewrite <- app_assoc. reflexivity. }
      rewrite count_of_app. unfold count_of at 1. simpl. lia.
    + intros Hno. unfold apply_command, bind.
      destruct (input_validator_cases (keyword_action (sc_locals sc))
                  (keyword_group (sc_locals sc)) (user_arg sc) w1)
        as [(flag & Hv)|Hv].
      * exfalso. exact (Hno _ _ Hv).
      * rewrite Hv. split; [reflexivity|]. split; [reflexivity|].
        erewrite new_events_app.
        2:{ unfold w1, after_read. simpl. reflexivity. }
        reflexivity.
Qed.

Lemma parse_shortfall_is_not_checked_witness :
  let w := mkWorld idle [] [line_of "Start_Alarm(0): Group(7) 5 hello"]
                   [zeroed] [] in
  let sc := sscanf_line (line_of "Start_Alarm(0): Group(7) 5 hello")
                        no_keywords zeroed in
  let o := main_iteration 1 no_keywords w in
  (id_alarm (sc_alarm sc) < 1 \/ id_group (sc_alarm sc) < 1) /\
  o = Done (Continue (sc_locals sc)) (log (after_read w [] []) BadCommand) /\
  w_shared (final o) = w_shared w /\
  count_of is_inserted (new_events w o) = 0%nat.
Proof.
  intros w sc o.
  assert (Hlow : id_alarm (sc_alarm sc) < 1 \/ id_group (sc_alarm sc) < 1)
    by (left; vm_compute; reflexivity).
  split; [exact Hlow|].
  refine (proj1 (parse_shortfall_is_not_checked 1 no_keywords w
                   (line_of "Start_Alarm(0): Group(7) 5 hello") [] zeroed []
                   _ _ _) Hlow); reflexivity.
Defined.

(** C9 fails as stated: [sscanf] matches four of the six items of a
    Start_Alarm line, and the line is not answered with "Bad command":
    the process is aborted. *)
Lemma short_start_line_aborts :
  let w := mkWorld idle [] [line_of "Start_Alarm(1): Group(2)"] [zeroed] [] in
  let sc := sscanf_line (line_of "Start_Alarm(1): Group(2)") no_keywords zeroed in
  user_arg sc = 4 /\
  keyword_action (sc_locals sc) = "Start_Alarm" /\
  main_iteration 5 no_keywords w =
    Aborted 69 "command not found" (after_read w [] []) /\
  count_of is_bad_command (new_events w (main_iteration 5 no_keywords w)) = 0%nat.
Proof.
  intros w sc. repeat split.
Qed.

(** ** Cancel *)

(** C6, as the code has it: [alarm_cancel] is an empty function and [main]
    never calls it.  Calling it leaves the world as it is and reports
    nothing.  A Cancel_Alarm line is either answered with "Bad command",
    with the store untouched, or applied like every other command: [main]
    runs its critical section on the new alarm, and every alarm that is
    in the store when [main] takes the mutex is still there afterwards. *)
Theorem cancel_removes_nothing
        (fuel : nat) (loc : locals) (w : world) (line : string)
        (rest : list string) (blk : alarm_t) (heap : list alarm_t) :
  w_stdin w = line :: rest ->
  1 < Z.of_nat (String.length line) ->
  w_heap w = blk :: heap ->
  let sc := sscanf_line line loc blk in
  let w1 := after_read w rest heap in
  keyword_action (sc_locals sc) = "Cancel_Alarm" ->
  user_arg sc = 2 ->
  (forall target w0, alarm_cancel target w0 = Done tt w0) /\
  ((main_iteration fuel loc w =
      Done (Continue (sc_locals sc)) (log w1 BadCommand) /\
    w_shared (log w1 BadCommand) = w_shared w) \/
   (main_iteration fuel loc w =
      (critical_section (sc_alarm sc) ;;
       alarm_group_display_creation fuel ;; sem_wait ;;
       ret (Continue (sc_locals sc))) w1 /\
    forall rl env x,
      w_env w = rl :: env ->
      In x (alarm_list (r_shared rl)) ->
      In x (alarm_list (w_shared (final (critical_section (sc_alarm sc) w1)))))).
Proof.
  intros Hin Hlen Hheap sc w1 Hka Hua.
  split; [reflexivity|].
  rewrite (main_iteration_line fuel loc w line rest blk heap Hin Hlen Hheap).
  fold sc. fold w1.
  destruct (bad_command (user_arg sc) (sc_alarm sc)); [left; split; reflexivity|].
  right. split.
  - unfold apply_command, input_validator. rewrite Hka, Hua. reflexivity.
  - intros rl env x Henv Hx.
    unfold critical_section, pthread_mutex_lock, acquire.
    unfold bind at 1 2 3. unfold env_call at 1.
    assert (Henv1 : w_env w1 = rl :: env) by exact Henv.
    rewrite Henv1. unfold set_shared at 1. unfold ret at 1.
    unfold bind at 1.
    destruct (r_status rl =? 0); [|exact Hx].
    unfold ret at 1. unfold bind at 1. unfold time_now, bind at 1, env_call at 1.
    simpl w_env. destruct env as [|rt env']; [exact Hx|].
    unfold ret at 1. unfold bind at 1.
    match goal with
    | |- context [alarm_insert ?a ?w2] =>
        pose proof (alarm_insert_list a w2) as Hl;
        assert (Hx' : In x (alarm_list (w_shared (final (alarm_insert a w2)))))
          by (rewrite Hl;
              apply (Permutation_in x
                       (Permutation_sym (insert_in_order_perm a _)));
              right; exact Hx);
        destruct (alarm_insert a w2) as [[] w3| | | | | ]; try exact Hx'
    end.
    simpl in Hx'. unfold pthread_mutex_unlock, status_of, bind, env_call, ret.
    destruct (w_env w3) as [|ru env3]; [exact Hx'|].
    destruct (r_status ru =? 0); exact Hx'.
Qed.

Lemma cancel_removes_nothing_witness :
  let target := mkAlarm 5 1 7 "hello" 105 in
  let blk := mkAlarm 30 0 5 "" 0 in
  let line := line_of "Cancel_Alarm(1)" in
  let w := mkWorld (mkShared [target] 105) [] [line] [blk]
                   [ok 100 (mkShared [target] 105); ok 100 idle] in
  let sc := sscanf_line line no_keywords blk in
  let w1 := after_read w [] [] in
  main_iteration 3 no_keywords w =
    (critical_section (sc_alarm sc) ;;
     alarm_group_display_creation 3 ;; sem_wait ;;
     ret (Continue (sc_locals sc))) w1 /\
  In target (alarm_list (w_shared (final (critical_section (sc_alarm sc) w1)))).
Proof.
  intros target blk line w sc w1.
  destruct (cancel_removes_nothing 3 no_keywords w line [] blk []
              eq_refl eq_refl eq_refl eq_refl eq_refl) as (_ & [(H & _)|(H & Hkeep)]).
  - discriminate H.
  - split; [exact H|].
    apply (Hkeep (ok 100 (mkShared [target] 105)) [ok 100 idle] target eq_refl).
    left. reflexivity.
Defined.

(** C6 fails as stated: after Cancel_Alarm(1) the alarm with id 1 is
    still in the store, whether through the stub or through [main]. *)
Lemma cancel_leaves_alarm_in_store :
  let target := mkAlarm 5 1 7 "hello" 105 in
  let w := mkWorld (mkShared [target] 105) [] [line_of "Cancel_Alarm(1)"]
                   [zeroed] [] in
  id_alarm target = 1 /\
  In target (alarm_list (w_shared w)) /\
  alarm_cancel target w = Done tt w /\
  (exists loc' w',
      main_iteration 3 no_keywords w = Done (Continue loc') w' /\
      In target (alarm_list (w_shared w')) /\
      new_events w (main_iteration 3 no_keywords w) = [Prompt; BadCommand]).
Proof.
  intros target w. split; [reflexivity|]. split; [left; reflexivity|].
  split; [reflexivity|].
  exists (mkLocals "Cancel_Alarm" ""), (log (after_read w [] []) BadCommand).
  split; [reflexivity|]. split; [left; reflexivity|reflexivity].
Qed.

(** The first Start_Alarm is applied and delivered; the second line is
    never read. *)
Example main_reads_one_command :
  exists w',
    main 6 no_keywords two_starts = Starved w' /\
    filter is_output (w_trace w') =
      [Prompt; Inserted (mkAlarm 5 1 7 "hello" 105); Delivered 5 "hello"] /\
    w_stdin w' = [line_of "Start_Alarm(2): Group(7) 2 world"].
Proof. eexists. split; [vm_compute; reflexivity|]. split; reflexivity. Qed.

Lemma dispatcher_never_returns_witness :
  let w := mkWorld idle [] [line_of "hello"] [zeroed] [] in
  exists c w',
    main_iteration 1 no_keywords w = Done c w' /\
    w_shared w' = w_shared w /\ w_env w' = w_env w /\
    (new_events w (main_iteration 1 no_keywords w) = [Prompt] \/
     new_events w (main_iteration 1 no_keywords w) = [Prompt; BadCommand]).
Proof.
  intros w.
  exists (Continue (mkLocals "hello" "")), (log (after_read w [] []) BadCommand).
  split; [reflexivity|].
  apply (proj1 (proj2 (proj2 dispatcher_never_returns)) 1%nat no_keywords w
           (Continue (mkLocals "hello" ""))).
  reflexivity.
Defined.

(** * Further properties of the code *)

(** ** [alarm_insert] and the dispatcher's deadline *)

Lemma adjacent_tail R a l : adjacent R (a :: l) -> adjacent R l.
Proof. destruct l; simpl; tauto. Qed.

Lemma adjacent_head_le a l :
  adjacent time_le (a :: l) -> forall x, In x l -> time a <= time x.
Proof.
  revert a. induction l as [|b l IH]; intros a Hs x Hx; [destruct Hx|].
  simpl in Hs. destruct Hs as (Hab & Hs). unfold time_le in Hab.
  destruct Hx as [<-|Hx]; [exact Hab|].
  specialize (IH b Hs x Hx). lia.
Qed.

(** X1: [alarm_insert] wakes the dispatcher exactly when it must.  If the
    dispatcher is idle ([current_alarm] is 0) or waits for a later
    deadline, [current_alarm] becomes the new deadline and
    [pthread_cond_signal] is called once; otherwise nothing is signalled,
    no reply of the environment is used and [current_alarm] stays.  In
    every case [current_alarm] is at most the new alarm's deadline
    afterwards. *)
Theorem alarm_insert_wakes_dispatcher (alarm : alarm_t) (w : world) :
  let o := alarm_insert alarm w in
  let cur := current_alarm (w_shared w) in
  current_alarm (w_shared (final o)) <= time alarm /\
  ((cur = 0 \/ time alarm < cur) ->
   current_alarm (w_shared (final o)) = time alarm /\
   (w_env w <> [] -> count_of is_signal (new_events w o) = 1%nat)) /\
  (cur <> 0 -> cur <= time alarm ->
   (exists w', o = Done tt w') /\
   current_alarm (w_shared (final o)) = cur /\
   count_of is_signal (new_events w o) = 0%nat /\
   w_env (final o) = w_env w).
Proof.
  cbv zeta. rewrite alarm_insert_run. cbv zeta.
  destruct ((current_alarm (w_shared w) =? 0)
            || (time alarm <? current_alarm (w_shared w))) eqn:E.
  - apply orb_true_iff in E. rewrite Z.eqb_eq, Z.ltb_lt in E.
    destruct (w_env w) as [|r env].
    + simpl. split; [lia|]. split; [|intros; lia].
      intros _. split; [reflexivity|]. intros H. exfalso. apply H. reflexivity.
    + assert (Hev : forall o : outcome unit,
                 w_trace (final o) =
                   (w_trace w ++ [Inserted alarm]) ++ [Called C_cond_signal r] ->
                 count_of is_signal (new_events w o) = 1%nat).
      { intros o Ho. erewrite new_events_app;
          [|rewrite Ho, <- app_assoc; reflexivity]. reflexivity. }
      destruct (r_status r =? 0); simpl; (split; [lia|]);
        (split; [|intros; lia]); intros _; (split; [reflexivity|]);
        intros _; apply Hev; reflexivity.
  - apply orb_false_iff in E. rewrite Z.eqb_neq, Z.ltb_ge in E. simpl.
    split; [lia|]. split; [intros; lia|]. intros _ _.
    split; [eauto|]. split; [reflexivity|]. split; [|reflexivity].
    erewrite new_events_app; [|reflexivity]. reflexivity.
Qed.

Lemma alarm_insert_wakes_dispatcher_witness :
  let w := mkWorld (mkShared [mkAlarm 9 1 1 "late" 200] 200) [] [] []
                   [ok 100 idle] in
  let alarm := mkAlarm 5 2 1 "soon" 105 in
  current_alarm (w_shared (final (alarm_insert alarm w))) = time alarm /\
  count_of is_signal (new_events w (alarm_insert alarm w)) = 1%nat.
Proof.
  intros w alarm.
  destruct (proj1 (proj2 (alarm_insert_wakes_dispatcher alarm w)))
    as (H1 & H2).
  - right. simpl. lia.
  - split; [exact H1|]. apply H2. discriminate.
Defined.

(** X2: on a list in ascending order of deadline, the head of the list
    after [alarm_insert] has the smallest deadline of all alarms, the new
    one included; and an alarm whose deadline is at most every pending
    deadline becomes the head. *)
Theorem alarm_insert_head_is_earliest (alarm : alarm_t) (w : world) :
  adjacent time_le (alarm_list (w_shared w)) ->
  exists head rest,
    alarm_list (w_shared (final (alarm_insert alarm w))) = head :: rest /\
    (forall x, In x (alarm :: alarm_list (w_shared w)) -> time head <= time x) /\
    ((forall x, In x (alarm_list (w_shared w)) -> time alarm <= time x) ->
     head = alarm).
Proof.
  intros Hs. rewrite alarm_insert_list.
  destruct (alarm_list (w_shared w)) as [|next l]; simpl.
  - exists alarm, []. split; [reflexivity|]. split; [|reflexivity].
    intros x [<-|[]]. lia.
  - destruct (time next >=? time alarm) eqn:E.
    + rewrite Z.geb_leb, Z.leb_le in E.
      exists alarm, (next :: l). split; [reflexivity|]. split; [|reflexivity].
      intros x [<-|[<-|Hx]]; [lia|exact E|].
      pose proof (adjacent_head_le next l Hs x Hx). lia.
    + rewrite Z.geb_leb, Z.leb_gt in E.
      exists next, (insert_in_order alarm l). split; [reflexivity|]. split.
      * intros x [<-|[<-|Hx]]; [lia|lia|].
        exact (adjacent_head_le next l Hs x Hx).
      * intros Hmin. specialize (Hmin next (or_introl eq_refl)). lia.
Qed.

Lemma alarm_insert_head_is_earliest_witness :
  let w := mkWorld (mkShared [mkAlarm 5 1 1 "a" 10; mkAlarm 9 2 1 "b" 20] 10)
                   [] [] [] [] in
  let alarm := mkAlarm 7 3 1 "c" 5 in
  exists head rest,
    alarm_list (w_shared (final (alarm_insert alarm w))) = head :: rest /\
    (forall x, In x (alarm :: alarm_list (w_shared w)) -> time head <= time x) /\
    ((forall x, In x (alarm_list (w_shared w)) -> time alarm <= time x) ->
     head = alarm).
Proof.
  intros w alarm. apply (alarm_insert_head_is_earliest alarm w).
  simpl. unfold time_le. simpl. lia.
Defined.

(** X3: any number of [alarm_insert] calls in a row, with every
    [pthread_cond_signal] succeeding, keeps the list in ascending order
    of deadline and adds exactly the given alarms to it. *)
Theorem alarm_insert_all_sorted (alarms : list alarm_t) :
  forall w,
    adjacent time_le (alarm_list (w_shared w)) ->
    Forall (fun r => r_status r = 0) (w_env w) ->
    (List.length alarms <= List.length (w_env w))%nat ->
    exists w',
      alarm_insert_all alarms w = Done tt w' /\
      adjacent time_le (alarm_list (w_shared w')) /\
      Permutation (alarm_list (w_shared w')) (alarms ++ alarm_list (w_shared w)).
Proof.
  induction alarms as [|a tl IH]; intros w Hs Henv Hlen.
  - exists w. split; [reflexivity|]. split; [exact Hs|reflexivity].
  - simpl alarm_insert_all. unfold bind.
    assert (Hstep : exists w1,
               alarm_insert a w = Done tt w1 /\
               alarm_list (w_shared w1) =
                 insert_in_order a (alarm_list (w_shared w)) /\
               Forall (fun r => r_status r = 0) (w_env w1) /\
               (List.length tl <= List.length (w_env w1))%nat).
    { rewrite alarm_insert_run. cbv zeta. destruct (_ || _).
      - destruct (w_env w) as [|r env]; [simpl in Hlen; lia|].
        inversion Henv as [|? ? Hr Henv']; subst. rewrite Hr. simpl.
        eexists. split; [reflexivity|]. simpl. split; [reflexivity|].
        split; [exact Henv'|]. simpl in Hlen. lia.
      - eexists. split; [reflexivity|]. simpl. split; [reflexivity|].
        split; [exact Henv|]. simpl in Hlen. lia. }
    destruct Hstep as (w1 & Hrun & Hlist & Henv1 & Hlen1). rewrite Hrun.
    destruct (IH w1) as (w' & Hrun' & Hs' & Hp');
      [rewrite Hlist; apply insert_in_order_sorted; exact Hs
      |exact Henv1|exact Hlen1|].
    exists w'. split; [exact Hrun'|]. split; [exact Hs'|].
    rewrite Hp', Hlist. simpl.
    rewrite (insert_in_order_perm a (alarm_list (w_shared w))).
    symmetry. apply Permutation_middle.
Qed.

Lemma alarm_insert_all_sorted_witness :
  let alarms := [mkAlarm 9 1 1 "b" 20; mkAlarm 5 2 1 "a" 10;
                 mkAlarm 7 3 1 "c" 15] in
  let w := mkWorld idle [] [] [] [ok 1 idle; ok 1 idle; ok 1 idle] in
  exists w',
    alarm_insert_all alarms w = Done tt w' /\
    adjacent time_le (alarm_list (w_shared w')) /\
    Permutation (alarm_list (w_shared w')) (alarms ++ alarm_list (w_shared w)).
Proof.
  intros alarms w. apply (alarm_insert_all_sorted alarms w).
  - exact I.
  - repeat constructor.
  - simpl. lia.
Defined.

(** ** Rounds of the dispatcher *)

Lemma wait_for_work_step fuel w :
  wait_for_work (S fuel) w =
  match alarm_list (w_shared w) with
  | [] =>
      match w_env w with
      | [] => Starved w
      | r :: env =>
          let w1 := woken w C_cond_wait r env in
          if r_status r =? 0 then wait_for_work fuel w1
          else Aborted (r_status r) "Wait on cond" w1
      end
  | _ :: _ => Done tt w
  end.
Proof.
  unfold wait_for_work. simpl.
  cbv beta iota delta [bind get_shared pthread_cond_wait acquire env_call
                       set_shared ret err_abort put_shared woken].
  destruct (alarm_list (w_shared w)) as [|a l]; [|reflexivity].
  destruct (w_env w) as [|r env]; [reflexivity|]. simpl.
  destruct (r_status r =? 0); reflexivity.
Qed.

(** X4: the idle wait of the dispatcher.  With an alarm on the list it
    returns at once without calling the environment.  With an empty list
    it calls [pthread_cond_wait] again after every wakeup that leaves the
    list empty, and returns at the first wakeup that finds an alarm, with
    the shared state of that wakeup. *)
Theorem wait_for_work_until_alarm
        (fuel : nat) (w : world) (empties : list reply) (r : reply)
        (env' : list reply) :
  (forall fuel' w0, alarm_list (w_shared w0) <> [] ->
                    wait_for_work (S fuel') w0 = Done tt w0) /\
  (alarm_list (w_shared w) = [] ->
   w_env w = empties ++ r :: env' ->
   Forall (fun e => r_status e = 0 /\ alarm_list (r_shared e) = []) empties ->
   r_status r = 0 ->
   alarm_list (r_shared r) <> [] ->
   (List.length empties + 1 < fuel)%nat ->
   wait_for_work fuel w =
   Done tt (mkWorld (r_shared r)
                    (w_trace w ++ map (Called C_cond_wait) (empties ++ [r]))
                    (w_stdin w) (w_heap w) env')).
Proof.
  split.
  - intros fuel' w0 Hne. rewrite wait_for_work_step.
    destruct (alarm_list (w_shared w0)); [contradiction|reflexivity].
  - revert fuel w. induction empties as [|e empties IH];
      intros fuel w Hnil Henv Hall Hr Hne Hfuel.
    + destruct fuel as [|[|fuel]]; simpl in Hfuel; try lia.
      rewrite wait_for_work_step, Hnil, Henv. simpl. rewrite Hr. simpl.
      rewrite wait_for_work_step. unfold woken. simpl.
      destruct (alarm_list (r_shared r)); [contradiction|reflexivity].
    + destruct fuel as [|fuel]; simpl in Hfuel; try lia.
      inversion Hall as [|? ? [He Hel] Hall']; subst.
      rewrite wait_for_work_step, Hnil, Henv. simpl. rewrite He. simpl.
      rewrite (IH fuel); try assumption; try reflexivity; [|lia].
      unfold woken. simpl. rewrite <- app_assoc. reflexivity.
Qed.

Lemma wait_for_work_until_alarm_witness :
  let pending := mkAlarm 5 1 7 "hello" 105 in
  let w := mkWorld idle [] [] []
                   [ok 100 idle; ok 101 (mkShared [pending] 105)] in
  wait_for_work 3 w =
  Done tt (mkWorld (mkShared [pending] 105)
                   (w_trace w ++
                    map (Called C_cond_wait)
                        ([ok 100 idle] ++ [ok 101 (mkShared [pending] 105)]))
                   [] [] []).
Proof.
  intros pending w.
  apply (proj2 (wait_for_work_until_alarm 3 w [ok 100 idle]
                  (ok 101 (mkShared [pending] 105)) [])).
  - reflexivity.
  - reflexivity.
  - repeat constructor.
  - reflexivity.
  - discriminate.
  - simpl. lia.
Defined.

Lemma dispatch_iteration_due fuel w a link rt env :
  alarm_list (w_shared w) = a :: link ->
  w_env w = rt :: env ->
  time a <= r_clock rt ->
  dispatch_iteration (S fuel) w =
  Done tt (mkWorld (mkShared link 0)
                   (w_trace w ++ [Called C_time rt; delivery_of a])
                   (w_stdin w) (w_heap w) env).
Proof.
  intros Hlist Henv Hdue. rewrite dispatch_iteration_run. unfold bind at 1.
  rewrite wait_for_work_step. unfold with_current at 1. unfold put_shared at 1.
  simpl alarm_list. rewrite Hlist.
  unfold with_current, put_shared. simpl. rewrite Hlist, Henv.
  assert (Hgt : (time a >? r_clock rt) = false)
    by (rewrite Z.gtb_ltb; apply Z.ltb_ge; exact Hdue).
  rewrite Hgt. unfold log, delivery_of. simpl.
  rewrite <- app_assoc. reflexivity.
Qed.

(** X5: a round that finds the head of the list already due (its time is
    not after the clock reading) prints its line at once, without any
    timed wait, and leaves the rest of the list as the store, with
    [current_alarm] reset to 0. *)
Theorem due_alarm_is_delivered_at_once
        (fuel : nat) (w : world) (a : alarm_t) (link : list alarm_t)
        (rt : reply) (env : list reply) :
  (0 < fuel)%nat ->
  alarm_list (w_shared w) = a :: link ->
  w_env w = rt :: env ->
  time a <= r_clock rt ->
  exists w',
    dispatch_iteration fuel w = Done tt w' /\
    w_shared w' = mkShared link 0 /\
    w_env w' = env /\
    new_events w (dispatch_iteration fuel w) =
      [Called C_time rt; Delivered (seconds a) (message a)].
Proof.
  intros Hfuel Hlist Henv Hdue. destruct fuel as [|fuel]; [lia|].
  rewrite (dispatch_iteration_due fuel w a link rt env Hlist Henv Hdue).
  eexists. split; [reflexivity|]. split; [reflexivity|]. split; [reflexivity|].
  apply new_events_app. reflexivity.
Qed.

Lemma due_alarm_is_delivered_at_once_witness :
  let a := mkAlarm 5 1 7 "hello" 105 in
  let b := mkAlarm 9 2 7 "later" 300 in
  let w := mkWorld (mkShared [a; b] 0) [] [] [] [ok 110 idle] in
  exists w',
    dispatch_iteration 1 w = Done tt w' /\
    w_shared w' = mkShared [b] 0 /\
    w_env w' = [] /\
    new_events w (dispatch_iteration 1 w) =
      [Called C_time (ok 110 idle); Delivered 5 "hello"].
Proof.
  intros a b w.
  apply (due_alarm_is_delivered_at_once 1 w a [b] (ok 110 idle) []).
  - lia.
  - reflexivity.
  - reflexivity.
  - simpl. lia.
Defined.

Lemma wait_for_deadline_timed_out alarm spurious :
  forall fuel w rto env',
    current_alarm (w_shared w) = time alarm ->
    w_env w = spurious ++ rto :: env' ->
    Forall (fun r => r_status r = 0 /\
                     current_alarm (r_shared r) = time alarm) spurious ->
    r_status rto = ETIMEDOUT ->
    (List.length spurious < fuel)%nat ->
    wait_for_deadline fuel alarm w =
    Done true
         (mkWorld (r_shared rto)
                  (w_trace w ++
                   map (Called (C_cond_timedwait (time alarm) 0))
                       (spurious ++ [rto]))
                  (w_stdin w) (w_heap w) env').
Proof.
  induction spurious as [|r spurious IH];
    intros fuel w rto env' Hcur Henv Hsp Hto Hfuel.
  - destruct fuel as [|fuel]; simpl in Hfuel; try lia.
    rewrite wait_for_deadline_step, Hcur, Z.eqb_refl, Henv. simpl.
    rewrite Hto. reflexivity.
  - destruct fuel as [|fuel]; simpl in Hfuel; try lia.
    inversion Hsp as [|? ? [Hr0 Hrc] Hsp']; subst.
    rewrite wait_for_deadline_step, Hcur, Z.eqb_refl, Henv. simpl.
    rewrite Hr0. simpl.
    rewrite (IH fuel _ rto env'); try assumption; try reflexivity; [|lia].
    unfold woken. simpl. rewrite <- app_assoc. reflexivity.
Qed.

(** X6: a round that commits to an alarm whose deadline is still ahead
    and whose timed wait, after any number of spurious wakeups, returns
    [ETIMEDOUT], prints the alarm's line and does not put the alarm back:
    the store is the one the timed-out wait found, whatever
    [current_alarm] holds by then. *)
Theorem timed_out_alarm_is_delivered
        (fuel : nat) (w w1 : world) (alarm : alarm_t) (link : list alarm_t)
        (rt rto : reply) (spurious env' : list reply) :
  wait_for_work fuel (with_current w 0) = Done tt w1 ->
  alarm_list (w_shared w1) = alarm :: link ->
  w_env w1 = rt :: spurious ++ rto :: env' ->
  time alarm > r_clock rt ->
  Forall (fun r => r_status r = 0 /\ current_alarm (r_shared r) = time alarm)
         spurious ->
  r_status rto = ETIMEDOUT ->
  (List.length spurious < fuel)%nat ->
  dispatch_iteration fuel w =
  Done tt (mkWorld (r_shared rto)
                   (w_trace w1 ++
                    Called C_time rt ::
                    map (Called (C_cond_timedwait (time alarm) 0))
                        (spurious ++ [rto]) ++
                    [Delivered (seconds alarm) (message alarm)])
                   (w_stdin w1) (w_heap w1) env').
Proof.
  intros Hwait Hlist Henv Hgt Hsp Hto Hfuel.
  rewrite dispatch_iteration_run. unfold bind at 1.
  rewrite Hwait, Hlist, Henv. cbv zeta.
  assert (Hgtb : (time alarm >? r_clock rt) = true)
    by (rewrite Z.gtb_ltb; apply Z.ltb_lt; lia).
  rewrite Hgtb. unfold bind.
  rewrite (wait_for_deadline_timed_out alarm spurious fuel _ rto env');
    try assumption; try reflexivity.
  unfold emit, log. simpl. rewrite <- !app_assoc. reflexivity.
Qed.

Lemma timed_out_alarm_is_delivered_witness :
  let alarm := mkAlarm 5 1 7 "hello" 105 in
  let waiting := mkShared [] 105 in
  let w := mkWorld (mkShared [alarm] 105) [] [] []
                   [ok 100 waiting; ok 103 waiting;
                    mkReply ETIMEDOUT 105 (mkShared [] 0)] in
  dispatch_iteration 2 w =
  Done tt (mkWorld (mkShared [] 0)
                   [Called C_time (ok 100 waiting);
                    Called (C_cond_timedwait 105 0) (ok 103 waiting);
                    Called (C_cond_timedwait 105 0)
                           (mkReply ETIMEDOUT 105 (mkShared [] 0));
                    Delivered 5 "hello"]
                   [] [] []).
Proof.
  intros alarm waiting w.
  apply (timed_out_alarm_is_delivered 2 w (with_current w 0) alarm []
           (ok 100 waiting) (mkReply ETIMEDOUT 105 (mkShared [] 0))
           [ok 103 waiting] []).
  - reflexivity.
  - reflexivity.
  - reflexivity.
  - simpl. lia.
  - repeat constructor.
  - reflexivity.
  - simpl. lia.
Defined.





(** X8: [alarm_insert] and the dispatcher together.  The dispatcher has
    committed to [alarm] and waits; meanwhile another thread calls
    [alarm_insert] on an alarm [sooner] with an earlier, non-zero
    deadline, on the state the dispatcher left (the rest of the list,
    [current_alarm] at the committed deadline).  That call moves
    [current_alarm] to the earlier deadline, so the dispatcher's wakeup
    counts as a preemption: the round ends without a delivery and without
    a further signal, the list is in ascending order of deadline again,
    and [sooner] stands in front of [alarm] in it. *)
Theorem earlier_insert_preempts_wait
        (fuel : nat) (w w1 wm : world) (alarm sooner : alarm_t)
        (link : list alarm_t) (rt rp : reply) (env' : list reply) :
  wait_for_work fuel (with_current w 0) = Done tt w1 ->
  alarm_list (w_shared w1) = alarm :: link ->
  adjacent time_le link ->
  w_env w1 = rt :: rp :: env' ->
  time alarm > r_clock rt ->
  w_shared wm = mkShared link (time alarm) ->
  time sooner < time alarm ->
  time sooner <> 0 ->
  r_status rp = 0 ->
  r_shared rp = w_shared (final (alarm_insert sooner wm)) ->
  (1 < fuel)%nat ->
  exists w' before after,
    dispatch_iteration fuel w = Done tt w' /\
    alarm_list (w_shared w') = before ++ alarm :: after /\
    In sooner before /\
    adjacent time_le (alarm_list (w_shared w')) /\
    current_alarm (w_shared w') = time sooner /\
    w_env w' = env' /\
    w_trace w' =
      w_trace w1 ++ [Called C_time rt;
                     Called (C_cond_timedwait (time alarm) 0) rp;
                     Inserted alarm].
Proof.
  intros Hwait Hlist Hsorted Henv Hgt Hwm Hlt Hnz Hrp Hshared Hfuel.
  pose proof (alarm_insert_list sooner wm) as Hl.
  rewrite <- Hshared, Hwm in Hl. simpl in Hl.
  assert (Hcur : current_alarm (r_shared rp) = time sooner).
  { rewrite Hshared, alarm_insert_run. cbv zeta. rewrite Hwm. simpl.
    assert (E : (time sooner <? time alarm) = true) by (apply Z.ltb_lt; lia).
    rewrite E, orb_true_r.
    destruct (w_env wm) as [|r env]; [reflexivity|].
    destruct (r_status r =? 0); reflexivity. }
  assert (Hafter : adjacent time_le (alarm_list (r_shared rp)))
    by (rewrite Hl; apply insert_in_order_sorted; exact Hsorted).
  rewrite dispatch_iteration_run. unfold bind at 1.
  rewrite Hwait, Hlist, Henv. cbv zeta.
  assert (Hgtb : (time alarm >? r_clock rt) = true)
    by (rewrite Z.gtb_ltb; apply Z.ltb_lt; lia).
  rewrite Hgtb. unfold bind.
  match goal with
  | |- context [wait_for_deadline fuel alarm ?w2] =>
      rewrite (wait_for_deadline_preempted alarm [] fuel w2 rp env' eq_refl
                 eq_refl (Forall_nil _) Hrp);
        [|rewrite Hcur; lia|simpl; lia]
  end.
  rewrite alarm_insert_run. cbv zeta. simpl. rewrite Hcur.
  assert (E0 : (time sooner =? 0) = false) by (apply Z.eqb_neq; exact Hnz).
  assert (E1 : (time alarm <? time sooner) = false) by (apply Z.ltb_ge; lia).
  rewrite E0, E1. simpl.
  destruct (insert_in_order_split alarm (alarm_list (r_shared rp)))
    as (before & after & Hsplit & Hins & Hb & Ha).
  exists (mkWorld
            (mkShared (insert_in_order alarm (alarm_list (r_shared rp)))
                      (time sooner))
            ((w_trace w1 ++ [Called C_time rt]) ++
             [Called (C_cond_timedwait (time alarm) 0) rp] ++ [Inserted alarm])
            (w_stdin w1) (w_heap w1) env'), before, after.
  split; [rewrite <- !app_assoc; reflexivity|]. simpl.
  split; [exact Hins|]. split.
  - assert (Hin : In sooner (before ++ after)).
    { rewrite <- Hsplit, Hl.
      apply (Permutation_in sooner
               (Permutation_sym (insert_in_order_perm sooner link))).
      left. reflexivity. }
    apply in_app_or in Hin. destruct Hin as [Hin|Hin]; [exact Hin|].
    exfalso. specialize (Ha Hafter).
    rewrite Forall_forall in Ha. specialize (Ha sooner Hin). lia.
  - split; [apply insert_in_order_sorted; exact Hafter|].
    split; [reflexivity|]. split; [reflexivity|].
    rewrite <- !app_assoc. reflexivity.
Qed.

Lemma earlier_insert_preempts_wait_witness :
  let alarm := mkAlarm 10 1 1 "A" 110 in
  let sooner := mkAlarm 1 2 1 "B" 103 in
  let later := mkAlarm 50 3 1 "C" 150 in
  let wm := mkWorld (mkShared [later] 110) [] [] [] [ok 102 idle] in
  let rp := ok 102 (w_shared (final (alarm_insert sooner wm))) in
  let w := mkWorld (mkShared [alarm; later] 0) [] [] []
                   [ok 100 idle; rp] in
  exists w' before after,
    dispatch_iteration 2 w = Done tt w' /\
    alarm_list (w_shared w') = before ++ alarm :: after /\
    In sooner before /\
    adjacent time_le (alarm_list (w_shared w')) /\
    current_alarm (w_shared w') = time sooner /\
    w_env w' = [] /\
    w_trace w' =
      w_trace (with_current w 0) ++
      [Called C_time (ok 100 idle);
       Called (C_cond_timedwait (time alarm) 0) rp;
       Inserted alarm].
Proof.
  intros alarm sooner later wm rp w.
  apply (earlier_insert_preempts_wait 2 w (with_current w 0) wm alarm sooner
           [later] (ok 100 idle) rp []).
  - reflexivity.
  - reflexivity.
  - exact I.
  - reflexivity.
  - simpl. lia.
  - reflexivity.
  - simpl. lia.
  - discriminate.
  - reflexivity.
  - reflexivity.
  - lia.
Defined.

(** ** [input_validator] *)

(** X9: the flag [input_validator] returns names the command: it returns
    [flag] exactly when [flag] is one of 1 to 6, the action keyword is
    that command's, the item count is that command's, and, for
    Start_Alarm and Change_Alarm, the group keyword is "Group".  It never
    changes the world; when no flag fits, it aborts with code 69. *)
Theorem input_validator_table
        (ka kg : string) (ua : Z) (w : world) :
  (forall flag w',
      input_validator ka kg ua w = Done flag w' <->
      (w' = w /\ 1 <= flag <= 6 /\
       ka = command_keyword flag /\ ua = command_items flag /\
       (needs_group flag = true -> kg = "Group"))) /\
  ((forall flag w', input_validator ka kg ua w <> Done flag w') ->
   input_validator ka kg ua w = Aborted 69 "command not found" w).
Proof.
  split.
  - intros flag w'. split.
    + unfold input_validator.
      repeat match goal with
             | |- context [if ?b then _ else _] =>
                 let E := fresh "E" in destruct b eqn:E
             end;
        unfold ret, err_abort; intros H; try discriminate;
        injection H as <- <-;
        repeat match goal with
               | H : (_ && _) = true |- _ =>
                   apply andb_true_iff in H; destruct H
               | H : (_ =? _)%string = true |- _ => apply String.eqb_eq in H
               | H : (_ =? _) = true |- _ => apply Z.eqb_eq in H
               end; subst; repeat split; try lia; try discriminate;
        intros _; reflexivity.
    + intros (-> & Hflag & Hka & Hua & Hkg).
      assert (Hcases : flag = 1 \/ flag = 2 \/ flag = 3 \/ flag = 4 \/
                       flag = 5 \/ flag = 6) by lia.
      destruct Hcases as [ -> | [ -> | [ -> | [ -> | [ -> | -> ]]]]];
        simpl in Hka, Hua;
        subst ka ua; try (rewrite (Hkg eq_refl)); reflexivity.
  - intros Hno. destruct (input_validator_cases ka kg ua w) as [(flag & H)|H];
      [exfalso; exact (Hno _ _ H)|exact H].
Qed.

Lemma input_validator_table_witness :
  input_validator "Foo" "Bar" 6 (mkWorld idle [] [] [] []) =
  Aborted 69 "command not found" (mkWorld idle [] [] [] []).
Proof.
  apply (proj2 (input_validator_table "Foo" "Bar" 6 (mkWorld idle [] [] [] []))).
  intros flag w'. discriminate.
Defined.

(** ** Reading a line with [sscanf] *)

Lemma string_length_app (s t : string) :
  String.length (s ++ t)%string = (String.length s + String.length t)%nat.
Proof. induction s as [|c s IH]; simpl; [reflexivity|]. rewrite IH. reflexivity. Qed.

Lemma scanset_prefix keep s :
  forall width c rest,
    all_chars keep s = true ->
    keep c = false ->
    (String.length s <= width)%nat ->
    scanset keep width (s ++ String c rest)%string = (s, String c rest).
Proof.
  induction s as [|a s IH]; intros width c rest Hall Hc Hw.
  - simpl. destruct width; simpl; [reflexivity|]. rewrite Hc. reflexivity.
  - simpl in Hall. apply andb_true_iff in Hall. destruct Hall as (Ha & Hall).
    destruct width as [|width]; [simpl in Hw; lia|].
    simpl. rewrite Ha. rewrite (IH width c rest Hall Hc); [reflexivity|].
    simpl in Hw. lia.
Qed.


Lemma scan_digits_stop acc rest :
  starts_with is_digit rest = false -> scan_digits acc rest = (acc, rest).
Proof.
  destruct rest as [|c rest]; simpl; [reflexivity|].
  unfold is_digit. destruct (digit_of c); [discriminate|reflexivity].
Qed.

Lemma scan_digits_numeral d :
  forall n rest,
    starts_with is_digit rest = false ->
    scan_digits (Z.of_nat n)
                (DecimalString.NilEmpty.string_of_uint d ++ rest)%string =
    (Z.of_nat (Nat.of_uint_acc d n), rest).
Proof.
  induction d as [|d IH|d IH|d IH|d IH|d IH|d IH|d IH|d IH|d IH|d IH];
    intros n rest Hrest;
    [apply scan_digits_stop; exact Hrest|..];
    cbn [DecimalString.NilEmpty.string_of_uint String.append scan_digits
         Nat.of_uint_acc];
    match goal with
    | |- context [digit_of ?c] =>
        let v := eval vm_compute in (digit_of c) in
        change (digit_of c) with v
    end;
    cbv iota; rewrite <- IH by exact Hrest; f_equal;
    rewrite Nat.tail_mul_spec; lia.
Qed.

Lemma decimal_first n :
  exists c s,
    decimal n = String c s /\ is_digit c = true /\ isspace c = false /\
    c <> "-"%char /\ c <> "+"%char.
Proof.
  unfold decimal.
  assert (Hnn : Nat.to_uint n <> Decimal.Nil).
  { rewrite <- (DecimalNat.Unsigned.of_to n) at 1.
    rewrite DecimalNat.Unsigned.to_of. apply DecimalFacts.unorm_nonnil. }
  destruct (Nat.to_uint n); [contradiction|..]; simpl;
    do 2 eexists; (split; [reflexivity|]);
    repeat split; try reflexivity; discriminate.
Qed.

Lemma scan_int_decimal n rest :
  starts_with is_digit rest = false ->
  scan_int (decimal n ++ rest)%string = Some (to_int (Z.of_nat n), rest).
Proof.
  intros Hrest.
  pose proof (scan_digits_numeral (Nat.to_uint n) 0 rest Hrest) as Hd.
  change (Nat.of_uint_acc (Nat.to_uint n) 0) with (Nat.of_uint (Nat.to_uint n))
    in Hd.
  rewrite DecimalNat.Unsigned.of_to in Hd. fold (decimal n) in Hd.
  destruct (decimal_first n) as (c & s & Hc & Hdig & Hsp & Hm & Hp).
  rewrite Hc in *. unfold scan_int. simpl String.append in *.
  simpl skip_spaces. rewrite Hsp.
  assert (Hsign : match String c (s ++ rest)%string with
                  | String "-" s' => (true, s')
                  | String "+" s' => (false, s')
                  | _ => (false, String c (s ++ rest)%string)
                  end = (false, String c (s ++ rest)%string)).
  { destruct c as [[] [] [] [] [] [] [] []]; try reflexivity;
      exfalso; first [apply Hm; reflexivity | apply Hp; reflexivity]. }
  rewrite Hsign. unfold is_digit in Hdig.
  destruct (digit_of c); [|discriminate].
  change (Z.of_nat 0) with 0 in Hd. rewrite Hd. reflexivity.
Qed.

Lemma literal_same c s : literal c (String c s) = Some s.
Proof. unfold literal. rewrite Ascii.eqb_refl. reflexivity. Qed.




Ltac scan_keyword Hall :=
  match goal with
  | |- context [scanset not_paren_nl ?w (?k ++ String ?c ?r)%string] =>
      rewrite (scanset_prefix not_paren_nl k w c r Hall eq_refl)
        by (rewrite ?string_length_app; lia)
  end; cbv beta iota.

Ltac scan_number :=
  match goal with
  | |- context [scan_int (decimal ?n ++ ?r)%string] =>
      rewrite (scan_int_decimal n r eq_refl)
  end; cbv beta iota.

Ltac scan_literal := rewrite literal_same; cbv beta iota.




Lemma sscanf_short_commands
        (kw : string) (a : nat) (loc : locals) (blk : alarm_t) :
  keyword kw ->
  sscanf_line (short_command kw a) loc blk =
    mkScanned 2 (mkLocals kw (keyword_group loc))
              (with_id_alarm blk (to_int (Z.of_nat a))) /\
  sscanf_line (bare_command kw) loc blk =
    mkScanned 1 (mkLocals kw (keyword_group loc)) blk.
Proof.
  intros (Hkne & Hkall & _).
  unfold sscanf_line, short_command, bare_command, nl. cbn [String.append].
  destruct kw as [|ck kw]; [contradiction|]. split.
  - scan_keyword Hkall. scan_literal. scan_number. scan_literal.
    reflexivity.
  - scan_keyword Hkall. reflexivity.
Qed.

(** X12: what [sscanf] can return and what it leaves alone, for every
    line.  The count is -1 for the empty string and between 0 and 6
    otherwise; [time] is never written; and each field and buffer that
    the count does not reach holds what it held before the call. *)
Theorem sscanf_line_leaves_the_rest
        (line : string) (loc : locals) (blk : alarm_t) :
  let sc := sscanf_line line loc blk in
  (line = EmptyString -> user_arg sc = EOF) /\
  (line <> EmptyString -> 0 <= user_arg sc <= 6) /\
  time (sc_alarm sc) = time blk /\
  (user_arg sc < 1 -> keyword_action (sc_locals sc) = keyword_action loc) /\
  (user_arg sc < 2 -> id_alarm (sc_alarm sc) = id_alarm blk) /\
  (user_arg sc < 3 -> keyword_group (sc_locals sc) = keyword_group loc) /\
  (user_arg sc < 4 -> id_group (sc_alarm sc) = id_group blk) /\
  (user_arg sc < 5 -> seconds (sc_alarm sc) = seconds blk) /\
  (user_arg sc < 6 -> message (sc_alarm sc) = message blk).
Proof.
  cbv zeta. unfold sscanf_line.
  destruct line as [|c0 line0].
  - simpl. repeat split; intros; try reflexivity; try contradiction;
      unfold EOF in *; lia.
  - repeat match goal with
           | |- context [match ?x with _ => _ end] =>
               match x with
               | scan_int _ => destruct x as [[? ?]|]
               | literal _ _ => destruct x as [?|]
               | scanset _ _ _ => destruct x as [[|? ?] ?]
               end
           end; simpl;
      repeat split; intros; try reflexivity; try discriminate; try lia.
Qed.

Lemma sscanf_line_leaves_the_rest_witness :
  let sc := sscanf_line (line_of "Cancel_Alarm(1)") no_keywords
                        (mkAlarm 30 0 5 "old" 9) in
  id_group (sc_alarm sc) = 5 /\ seconds (sc_alarm sc) = 30 /\
  message (sc_alarm sc) = "old".
Proof.
  intros sc.
  pose proof (sscanf_line_leaves_the_rest (line_of "Cancel_Alarm(1)")
                no_keywords (mkAlarm 30 0 5 "old" 9))
    as (_ & _ & _ & _ & _ & _ & Hg & Hs & Hm).
  split; [apply Hg; vm_compute; reflexivity|].
  split; [apply Hs; vm_compute; reflexivity|apply Hm; vm_compute; reflexivity].
Defined.

(** ** Lines through [main] *)

Lemma keyword_line_long kw c rest :
  keyword kw -> 1 < Z.of_nat (String.length (kw ++ String c rest)%string).
Proof.
  intros (Hne & _). destruct kw as [|c0 kw]; [contradiction|].
  rewrite string_length_app. simpl. lia.
Qed.



(** X11: the short command lines and a fresh block.  Of a line [kw(<a>)]
    [sscanf] matches two items, of a line [kw] one; the group id of the
    alarm is not reached and keeps what the block held.  So when the
    block's group id is below 1, as in zero-filled memory, every
    Cancel_Alarm, Suspend_Alarm, Reactivate_Alarm or View_Alarms line is
    answered with "Bad command" and the round ends with the store
    untouched. *)
Theorem short_commands_on_a_fresh_block
        (fuel : nat) (loc : locals) (w : world) (kw : string) (a : nat)
        (line : string) (rest : list string) (blk : alarm_t)
        (heap : list alarm_t) :
  keyword kw ->
  line = short_command kw a \/ line = bare_command kw ->
  w_stdin w = line :: rest ->
  w_heap w = blk :: heap ->
  id_group blk < 1 ->
  let sc := sscanf_line line loc blk in
  (user_arg sc = 2 \/ user_arg sc = 1) /\
  keyword_action (sc_locals sc) = kw /\
  id_group (sc_alarm sc) = id_group blk /\
  main_iteration fuel loc w =
    Done (Continue (mkLocals kw (keyword_group loc)))
         (log (after_read w rest heap) BadCommand) /\
  w_shared (log (after_read w rest heap) BadCommand) = w_shared w.
Proof.
  intros Hkw Hline Hin Hheap Hlow sc.
  destruct (sscanf_short_commands kw a loc blk Hkw) as (Hshort & Hbare).
  assert (Hlen : 1 < Z.of_nat (String.length line)).
  { destruct Hline as [->| ->]; unfold short_command, bare_command, nl;
      apply keyword_line_long; exact Hkw. }
  rewrite (main_iteration_line fuel loc w line rest blk heap Hin Hlen Hheap).
  fold sc.
  assert (Hsc : (user_arg sc = 2 \/ user_arg sc = 1) /\
                sc_locals sc = mkLocals kw (keyword_group loc) /\
                id_group (sc_alarm sc) = id_group blk).
  { unfold sc. destruct Hline as [->| ->].
    - rewrite Hshort. simpl. auto.
    - rewrite Hbare. simpl. auto. }
  destruct Hsc as (Hua & Hloc & Hgrp).
  assert (Hbad : bad_command (user_arg sc) (sc_alarm sc) = true).
  { unfold bad_command. apply orb_true_iff. right.
    apply Z.ltb_lt. rewrite Hgrp. exact Hlow. }
  rewrite Hbad, Hloc. repeat split; try assumption; reflexivity.
Qed.

Lemma short_commands_on_a_fresh_block_witness :
  let w := mkWorld (mkShared [mkAlarm 5 1 7 "hello" 105] 105) []
                   [short_command "Suspend_Alarm" 1] [zeroed] [] in
  main_iteration 2 no_keywords w =
    Done (Continue (mkLocals "Suspend_Alarm" ""))
         (log (after_read w [] []) BadCommand).
Proof.
  intros w.
  refine (proj1 (proj2 (proj2 (proj2
            (short_commands_on_a_fresh_block 2 no_keywords w "Suspend_Alarm" 1
               (short_command "Suspend_Alarm" 1) [] zeroed [] _ _ _ _ _))))).
  - repeat split. discriminate.
  - left. reflexivity.
  - reflexivity.
  - reflexivity.
  - simpl. lia.
Defined.

Lemma main_starts fuel loc w r0 r1 r2 env :
  w_env w = r0 :: r1 :: r2 :: env ->
  r_status r1 = 0 -> r_status r2 = 0 ->
  main fuel loc w =
  while_loop fuel (main_iteration fuel) loc (started w r0 r1 r2 env).
Proof.
  intros Henv Hr1 Hr2.
  unfold main, sem_init, pthread_create, status_of.
  unfold bind at 1 2. unfold env_call at 1. rewrite Henv. unfold ret at 1.
  unfold bind at 1 2 3. unfold env_call at 1. simpl w_env.
  unfold ret at 1. rewrite Hr1. simpl (0 =? 0). unfold ret at 1.
  unfold bind at 1 2 3. unfold env_call at 1. simpl w_env.
  unfold ret at 1. rewrite Hr2. simpl (0 =? 0). unfold ret at 1.
  unfold started. simpl. rewrite <- !app_assoc. reflexivity.
Qed.

Lemma main_loop_blank_lines fuel :
  forall blanks n loc w,
    w_stdin w = blanks ->
    Forall (fun l => (String.length l <= 1)%nat) blanks ->
    (List.length blanks < n)%nat ->
    while_loop n (main_iteration fuel) loc w =
    Exited 0 (mkWorld (w_shared w)
                      (w_trace w ++ repeat Prompt (S (List.length blanks)))
                      [] (w_heap w) (w_env w)).
Proof.
  induction blanks as [|line blanks IH]; intros n loc w Hin Hall Hn.
  - destruct n as [|n]; [simpl in Hn; lia|].
    simpl. rewrite main_iteration_run, Hin. reflexivity.
  - destruct n as [|n]; [simpl in Hn; lia|].
    inversion Hall as [|? ? Hline Hall']; subst.
    simpl while_loop. rewrite main_iteration_run, Hin.
    assert (Hle : (Z.of_nat (String.length line) <=? 1) = true)
      by (apply Z.leb_le; lia).
    rewrite Hle.
    rewrite (IH n loc); try assumption; try reflexivity; [|simpl in Hn; lia].
    unfold after_read. simpl. rewrite <- app_assoc. reflexivity.
Qed.

(** X14: empty lines and the end of the input.  When standard input
    holds nothing but lines of at most one character, [main], once its
    two threads are created, prints the prompt once per line and once
    more, allocates nothing, leaves the alarm list alone and ends the
    process with [exit (0)]. *)
Theorem blank_lines_then_exit
        (fuel : nat) (loc : locals) (w : world) (r0 r1 r2 : reply)
        (env : list reply) :
  Forall (fun l => (String.length l <= 1)%nat) (w_stdin w) ->
  w_env w = r0 :: r1 :: r2 :: env ->
  r_status r1 = 0 -> r_status r2 = 0 ->
  (List.length (w_stdin w) < fuel)%nat ->
  main fuel loc w =
  Exited 0
    (mkWorld (w_shared w)
             (w_trace w ++
              [Called C_sem_init r0;
               Called (C_create "alarm_group_display_creation") r1;
               Called (C_create "alarm_group_display_removal") r2] ++
              repeat Prompt (S (List.length (w_stdin w))))
             [] (w_heap w) env).
Proof.
  intros Hall Henv Hr1 Hr2 Hfuel.
  rewrite (main_starts fuel loc w r0 r1 r2 env Henv Hr1 Hr2).
  rewrite (main_loop_blank_lines fuel (w_stdin w)); try assumption;
    try reflexivity.
  unfold started. simpl. rewrite <- !app_assoc. reflexivity.
Qed.

Lemma blank_lines_then_exit_witness :
  let w := mkWorld idle [] [nl; nl] [zeroed]
                   [ok 99 idle; ok 99 idle; ok 99 idle] in
  main 3 no_keywords w =
  Exited 0
    (mkWorld idle
             [Called C_sem_init (ok 99 idle);
              Called (C_create "alarm_group_display_creation") (ok 99 idle);
              Called (C_create "alarm_group_display_removal") (ok 99 idle);
              Prompt; Prompt; Prompt]
             [] [zeroed] []).
Proof.
  intros w.
  apply (blank_lines_then_exit 3 no_keywords w (ok 99 idle) (ok 99 idle)
           (ok 99 idle) []).
  - repeat constructor.
  - reflexivity.
  - reflexivity.
  - reflexivity.
  - simpl. lia.
Defined.

Lemma main_loop_rejected_lines fuel :
  forall lines blocks n loc w heap',
    w_stdin w = lines ->
    w_heap w = blocks ++ heap' ->
    Forall2 rejected lines blocks ->
    (List.length lines < n)%nat ->
    while_loop n (main_iteration fuel) loc w =
    Exited 0 (mkWorld (w_shared w)
                      (w_trace w ++
                       flat_map (fun _ : string => [Prompt; BadCommand]) lines
                       ++ [Prompt])
                      [] heap' (w_env w)).
Proof.
  induction lines as [|line lines IH]; intros blocks n loc w heap' Hin Hheap Hrej Hn.
  - destruct blocks as [|blk blocks]; [|inversion Hrej].
    destruct n as [|n]; [simpl in Hn; lia|].
    simpl. rewrite main_iteration_run, Hin. unfold after_read.
    rewrite Hheap. reflexivity.
  - destruct blocks as [|blk blocks]; [inversion Hrej|].
    assert (Hline : rejected line blk) by (inversion Hrej; assumption).
    assert (Hrest : Forall2 rejected lines blocks)
      by (inversion Hrej; assumption).
    destruct Hline as (Hlen & Hbad).
    destruct n as [|n]; [simpl in Hn; lia|].
    simpl while_loop.
    rewrite (main_iteration_line fuel loc w line lines blk (blocks ++ heap')
               Hin Hlen Hheap).
    rewrite Hbad.
    rewrite (IH blocks n _ _ heap'); try assumption; try reflexivity;
      [|simpl in Hn; lia].
    unfold log, after_read. simpl. rewrite <- !app_assoc. reflexivity.
Qed.

(** X15: "Bad command" is not fatal.  When every line of the input is one
    that line 238 turns down, [main] answers each with the prompt and
    "Bad command", takes one block per line, never touches the alarm list
    or the mutex, and at the end of the input prints the prompt once more
    and ends the process with [exit (0)]. *)
Theorem rejected_lines_then_exit
        (fuel : nat) (loc : locals) (w : world) (blocks heap' : list alarm_t)
        (r0 r1 r2 : reply) (env : list reply) :
  Forall2 rejected (w_stdin w) blocks ->
  w_heap w = blocks ++ heap' ->
  w_env w = r0 :: r1 :: r2 :: env ->
  r_status r1 = 0 -> r_status r2 = 0 ->
  (List.length (w_stdin w) < fuel)%nat ->
  main fuel loc w =
  Exited 0
    (mkWorld (w_shared w)
             (w_trace (started w r0 r1 r2 env) ++
              flat_map (fun _ : string => [Prompt; BadCommand]) (w_stdin w) ++
              [Prompt])
             [] heap' env).
Proof.
  intros Hrej Hheap Henv Hr1 Hr2 Hfuel.
  rewrite (main_starts fuel loc w r0 r1 r2 env Henv Hr1 Hr2).
  rewrite (main_loop_rejected_lines fuel (w_stdin w) blocks fuel loc _ heap');
    try assumption; reflexivity.
Qed.

Lemma rejected_lines_then_exit_witness :
  let pending := mkAlarm 5 1 7 "hello" 105 in
  let w := mkWorld (mkShared [pending] 105) []
                   [line_of "hello"; line_of "Start_Alarm(0): Group(7) 5 x"]
                   [zeroed; zeroed; zeroed]
                   [ok 99 idle; ok 99 idle; ok 99 idle] in
  exists w',
    main 3 no_keywords w = Exited 0 w' /\
    w_shared w' = mkShared [pending] 105 /\
    w_heap w' = [zeroed] /\
    filter is_output (w_trace w') =
      [Prompt; BadCommand; Prompt; BadCommand; Prompt].
Proof.
  intros pending w. eexists. split.
  - apply (rejected_lines_then_exit 3 no_keywords w [zeroed; zeroed] [zeroed]
             (ok 99 idle) (ok 99 idle) (ok 99 idle) []).
    + repeat constructor; intros loc; reflexivity.
    + reflexivity.
    + reflexivity.
    + reflexivity.
    + reflexivity.
    + simpl. lia.
  - repeat split.
Defined.
